(** * Sweep inputs, fee rates and node announcements of lnd

    A shallow embedding of four pieces of the node:

    - [ChainFee]: the fee-rate conversions of package [chainfee]
      ([SatPerKVByte], [SatPerKWeight]) over Go's [int64];
    - [NetAnn]: the node-announcement modifiers of package [netann], in
      particular [NodeAnnSetTimestamp] over Go's [uint32];
    - [Input]: the [Input] abstraction of package [input] ([inputKit],
      [BaseInput], [HtlcSucceedInput]), over an explicit store of Go
      objects, with the collaborators the package calls (the table of
      witness generators, [SenderHtlcSpendRedeem], the signer) taken as
      parameters;
    - [BtcWallet]: the factory [createNewWallet] of the wallet driver of
      package [btcwallet], over the dynamic types of its arguments. *)

From Stdlib Require Import ZArith Lia List.
From stdpp Require Import base option list strings pretty gmap.

(** ** Go's fixed-width integers *)

Module GoInt.
Local Open Scope Z_scope.

Definition int64_min : Z := - 2 ^ 63.
Definition int64_max : Z := 2 ^ 63 - 1.
Definition uint32_max : Z := 2 ^ 32 - 1.

(** The values an [int64] holds. *)
Definition in_int64 (z : Z) : Prop := int64_min <= z <= int64_max.

(** The values a [uint32] holds. *)
Definition in_uint32 (z : Z) : Prop := 0 <= z <= uint32_max.

(** Two's-complement wrap-around of a mathematical integer into [int64]. *)
Definition wrap64 (z : Z) : Z := (z + 2 ^ 63) mod 2 ^ 64 - 2 ^ 63.

(** Conversion to (and wrap-around in) [uint32]. *)
Definition uint32 (z : Z) : Z := z mod 2 ^ 32.

(** [a * b] on [int64]. *)
Definition mul64 (a b : Z) : Z := wrap64 (a * b).

(** [a / b] on [int64], [b] a non-zero constant: the quotient is truncated
    towards zero. *)
Definition quo64 (a b : Z) : Z := wrap64 (Z.quot a b).

Lemma wrap64_id z : in_int64 z -> wrap64 z = z.
Proof.
  unfold in_int64, int64_min, int64_max, wrap64. intros Hz.
  rewrite Z.mod_small by lia. lia.
Qed.

Lemma wrap64_range z : in_int64 (wrap64 z).
Proof.
  unfold in_int64, int64_min, int64_max, wrap64.
  pose proof (Z.mod_pos_bound (z + 2 ^ 63) (2 ^ 64)). lia.
Qed.

Lemma uint32_id z : in_uint32 z -> uint32 z = z.
Proof.
  unfold in_uint32, uint32_max, uint32. intros Hz.
  apply Z.mod_small. lia.
Qed.

Lemma uint32_range z : in_uint32 (uint32 z).
Proof.
  unfold in_uint32, uint32_max, uint32.
  pose proof (Z.mod_pos_bound z (2 ^ 32)). lia.
Qed.

End GoInt.

(** ** Package chainfee *)

Module ChainFee.
Import GoInt.
Local Open Scope Z_scope.

(** [ltcutil.Amount], an [int64]. *)
Definition Amount : Type := Z.

(** [blockchain.WitnessScaleFactor]. *)
Definition WitnessScaleFactor : Z := 4.

(** A fee rate in sat/kb. *)
Definition SatPerKVByte : Type := Amount.

(** A fee rate in sat/kw. *)
Definition SatPerKWeight : Type := Amount.

Definition FeePerKwFloor : SatPerKWeight := 253.
Definition AbsoluteFeePerKwFloor : SatPerKWeight := 250.

Module SatPerKVByte.

Definition FeeForVSize (s : SatPerKVByte) (vbytes : Z) : Amount :=
  quo64 (mul64 s vbytes) 1000.

Definition FeePerKWeight (s : SatPerKVByte) : SatPerKWeight :=
  quo64 s WitnessScaleFactor.

(** [fmt.Sprintf("%v sat/kb", int64(s))]: the rate in decimal, with a
    minus sign when negative, and its unit. *)
Definition String (s : SatPerKVByte) : string :=
  (pretty s +:+ " sat/kb")%string.

End SatPerKVByte.

Module SatPerKWeight.

Definition FeeForWeight (s : SatPerKWeight) (wu : Z) : Amount :=
  quo64 (mul64 s wu) 1000.

Definition FeePerKVByte (s : SatPerKWeight) : SatPerKVByte :=
  mul64 s WitnessScaleFactor.

(** [fmt.Sprintf("%v sat/kw", int64(s))] *)
Definition String (s : SatPerKWeight) : string :=
  (pretty s +:+ " sat/kw")%string.

End SatPerKWeight.

Example floor_in_kb :
  SatPerKWeight.FeePerKVByte FeePerKwFloor = 1012.
Proof. reflexivity. Qed.

Example kb_1001_truncates :
  SatPerKVByte.FeePerKWeight 1001 = 250
  /\ SatPerKWeight.FeePerKVByte 250 = 1000.
Proof. split; reflexivity. Qed.

Example kb_negative_truncates_to_zero :
  SatPerKVByte.FeePerKWeight (-1) = 0.
Proof. reflexivity. Qed.

(** Without overflow, multiplying by the scale factor and dividing again
    gives the rate back. *)
Lemma kw_kb_kw (s : SatPerKWeight) :
  in_int64 s -> in_int64 (s * WitnessScaleFactor) ->
  SatPerKVByte.FeePerKWeight (SatPerKWeight.FeePerKVByte s) = s.
Proof.
  intros Hs Hmul.
  unfold SatPerKVByte.FeePerKWeight, SatPerKWeight.FeePerKVByte, quo64, mul64.
  rewrite (wrap64_id _ Hmul).
  unfold WitnessScaleFactor. rewrite Z.quot_mul by lia.
  apply wrap64_id, Hs.
Qed.

(** The truncated quotient, scaled back, stays inside [int64] and is a
    multiple of the scale factor. *)
Lemma kb_kw_kb_value (k : SatPerKVByte) :
  in_int64 k ->
  SatPerKWeight.FeePerKVByte (SatPerKVByte.FeePerKWeight k)
  = k - Z.rem k WitnessScaleFactor.
Proof.
  intros Hk.
  unfold SatPerKVByte.FeePerKWeight, SatPerKWeight.FeePerKVByte, quo64, mul64.
  unfold WitnessScaleFactor.
  pose proof (Z.quot_rem' k 4) as Hqr.
  assert (Hr : Z.abs (Z.rem k 4) < 4)
    by (apply (Z.rem_bound_abs k 4); lia).
  assert (Hsign : (0 <= k -> 0 <= Z.rem k 4) /\ (k <= 0 -> Z.rem k 4 <= 0)).
  { split; intros Hsgn.
    - apply Z.rem_nonneg; lia.
    - apply Z.rem_nonpos; lia. }
  assert (Hq : in_int64 (Z.quot k 4))
    by (unfold in_int64, int64_min, int64_max in *; lia).
  rewrite (wrap64_id _ Hq).
  assert (Hm : in_int64 (Z.quot k 4 * 4))
    by (unfold in_int64, int64_min, int64_max in *; lia).
  rewrite (wrap64_id _ Hm). lia.
Qed.

(** ** C8 *)

(** C8: sat/kw to sat/kb and back is the identity on every rate [s] whose
    product with the witness scale factor 4 stays inside [int64]; sat/kb
    to sat/kw and back is not the identity on any rate [k] that 4 does not
    divide, the division being truncated. *)
Theorem fee_rate_round_trip :
  (forall s : SatPerKWeight,
     in_int64 s -> in_int64 (s * WitnessScaleFactor) ->
     SatPerKVByte.FeePerKWeight (SatPerKWeight.FeePerKVByte s) = s)
  /\ (forall k : SatPerKVByte,
        in_int64 k -> k mod WitnessScaleFactor <> 0 ->
        SatPerKWeight.FeePerKVByte (SatPerKVByte.FeePerKWeight k) <> k).
Proof.
  split.
  - intros s Hs Hmul. apply kw_kb_kw; assumption.
  - intros k Hk Hdiv. rewrite kb_kw_kb_value by assumption.
    unfold WitnessScaleFactor in *. intros Heq.
    assert (Hrem : Z.rem k 4 = 0) by lia.
    apply Z.rem_divide in Hrem; [| lia].
    apply Z.mod_divide in Hrem; [| lia]. contradiction.
Qed.

Lemma fee_rate_round_trip_witness :
  SatPerKVByte.FeePerKWeight (SatPerKWeight.FeePerKVByte 253) = 253
  /\ SatPerKWeight.FeePerKVByte (SatPerKVByte.FeePerKWeight 1001) <> 1001.
Proof.
  destruct fee_rate_round_trip as [Hkw Hkb]. split.
  - apply (Hkw 253);
      unfold in_int64, int64_min, int64_max, WitnessScaleFactor; lia.
  - apply (Hkb 1001).
    + unfold in_int64, int64_min, int64_max; lia.
    + discriminate.
Defined.

(** ** Fee rates: what else the conversions and the fees do *)

Example String_floor :
  SatPerKWeight.String FeePerKwFloor = "253 sat/kw"%string
  /\ SatPerKVByte.String (-1012) = "-1012 sat/kb"%string.
Proof. split; vm_compute; reflexivity. Qed.

(** Wrapping leaves the residue modulo [2^64]. *)
Lemma wrap64_mod z : wrap64 z mod 2 ^ 64 = z mod 2 ^ 64.
Proof.
  unfold wrap64.
  rewrite <- (Z.mod_add ((z + 2 ^ 63) mod 2 ^ 64 - 2 ^ 63) 1 (2 ^ 64)) by lia.
  replace ((z + 2 ^ 63) mod 2 ^ 64 - 2 ^ 63 + 1 * 2 ^ 64)
    with ((z + 2 ^ 63) mod 2 ^ 64 + 2 ^ 63) by lia.
  rewrite Z.add_mod_idemp_l by lia.
  replace (z + 2 ^ 63 + 2 ^ 63) with (z + 1 * 2 ^ 64) by lia.
  apply Z.mod_add. lia.
Qed.

Lemma wrap64_congr a b : a mod 2 ^ 64 = b mod 2 ^ 64 -> wrap64 a = wrap64 b.
Proof.
  intros H. unfold wrap64.
  rewrite <- (Z.add_mod_idemp_l a), <- (Z.add_mod_idemp_l b) by lia.
  rewrite H. reflexivity.
Qed.

(** Multiplication on [int64] is multiplication modulo [2^64]: a wrapped
    factor can be unwrapped. *)
Lemma mul64_wrap_l a b : mul64 (wrap64 a) b = mul64 a b.
Proof.
  unfold mul64. apply wrap64_congr.
  rewrite <- Z.mul_mod_idemp_l by lia. rewrite wrap64_mod.
  apply Z.mul_mod_idemp_l. lia.
Qed.

Lemma mul64_wrap_r a b : mul64 a (wrap64 b) = mul64 a b.
Proof.
  unfold mul64. apply wrap64_congr.
  rewrite <- Z.mul_mod_idemp_r by lia. rewrite wrap64_mod.
  apply Z.mul_mod_idemp_r. lia.
Qed.

(** A truncated quotient of an [int64] by a constant above 1 is an
    [int64]. *)
Lemma quo64_small a b :
  in_int64 a -> 1 <= b -> quo64 a b = Z.quot a b.
Proof.
  intros Ha Hb. unfold quo64. apply wrap64_id.
  unfold in_int64, int64_min, int64_max in *.
  destruct (Z.le_gt_cases 0 a) as [Hpos | Hneg].
  - rewrite Z.quot_div_nonneg by lia.
    pose proof (Z.div_pos a b Hpos ltac:(lia)).
    assert (a / b <= a) by (apply Z.div_le_upper_bound; nia). lia.
  - assert (Hq : Z.quot a b = - Z.quot (- a) b)
      by (rewrite Z.quot_opp_l by lia; lia).
    rewrite Hq. rewrite Z.quot_div_nonneg by lia.
    pose proof (Z.div_pos (- a) b ltac:(lia) ltac:(lia)).
    assert (- a / b <= - a) by (apply Z.div_le_upper_bound; nia). lia.
Qed.

(** X1: the round trip of C8, sharpened: on an [int64] rate in sat/kw,
    converting to sat/kb and back gives the rate back exactly when four
    times the rate is an [int64]; once the multiplication overflows, the
    rate that comes back is another one. *)
Theorem kw_kb_kw_iff_no_overflow (s : SatPerKWeight) :
  in_int64 s ->
  SatPerKVByte.FeePerKWeight (SatPerKWeight.FeePerKVByte s) = s
  <-> in_int64 (s * WitnessScaleFactor).
Proof.
  intros Hs. split; [| apply kw_kb_kw; assumption].
  unfold SatPerKVByte.FeePerKWeight, SatPerKWeight.FeePerKVByte, mul64.
  unfold WitnessScaleFactor.
  pose proof (wrap64_range (s * 4)) as Hw.
  rewrite quo64_small by (assumption || lia).
  set (x := wrap64 (s * 4)) in *. intros Heq.
  unfold in_int64, int64_min, int64_max in *.
  pose proof (Z.quot_rem' x 4) as Hqr.
  assert (Hr : Z.abs (Z.rem x 4) < 4) by (apply Z.rem_bound_abs; lia).
  assert (Hsign : (0 <= x -> 0 <= Z.rem x 4) /\ (x <= 0 -> Z.rem x 4 <= 0)).
  { split; intros Hsgn; [apply Z.rem_nonneg | apply Z.rem_nonpos]; lia. }
  lia.
Qed.

Lemma kw_kb_kw_iff_no_overflow_witness :
  SatPerKVByte.FeePerKWeight (SatPerKWeight.FeePerKVByte (2 ^ 62)) <> 2 ^ 62
  /\ SatPerKVByte.FeePerKWeight (SatPerKWeight.FeePerKVByte (2 ^ 61 - 1))
     = 2 ^ 61 - 1.
Proof.
  split.
  - intros Heq.
    apply (kw_kb_kw_iff_no_overflow (2 ^ 62)) in Heq;
      unfold in_int64, int64_min, int64_max, WitnessScaleFactor in *; lia.
  - apply (kw_kb_kw_iff_no_overflow (2 ^ 61 - 1));
      unfold in_int64, int64_min, int64_max, WitnessScaleFactor; lia.
Defined.

(** The fee of a rate over a size, before any overflow. *)
Lemma FeeForWeight_quot (s : SatPerKWeight) (wu : Z) :
  in_int64 (s * wu) ->
  SatPerKWeight.FeeForWeight s wu = Z.quot (s * wu) 1000.
Proof.
  intros H. unfold SatPerKWeight.FeeForWeight, mul64.
  rewrite (wrap64_id _ H). apply quo64_small; [exact H | lia].
Qed.

Lemma FeeForVSize_quot (s : SatPerKVByte) (vbytes : Z) :
  in_int64 (s * vbytes) ->
  SatPerKVByte.FeeForVSize s vbytes = Z.quot (s * vbytes) 1000.
Proof.
  intros H. unfold SatPerKVByte.FeeForVSize, mul64.
  rewrite (wrap64_id _ H). apply quo64_small; [exact H | lia].
Qed.

(** X2: [FeeForWeight] is the product over 1000 with the fraction dropped:
    rounded down for a product that is not negative, as its comment has
    it, and rounded up, towards zero, for a negative one.  [FeeForVSize]
    computes the same number. *)
Theorem FeeForWeight_drops_the_fraction (s : SatPerKWeight) (wu : Z) :
  in_int64 (s * wu) ->
  let fee := SatPerKWeight.FeeForWeight s wu in
  (0 <= s * wu -> 0 <= fee /\ 1000 * fee <= s * wu < 1000 * fee + 1000)
  /\ (s * wu <= 0 -> fee <= 0 /\ 1000 * fee - 1000 < s * wu <= 1000 * fee)
  /\ SatPerKVByte.FeeForVSize s wu = fee.
Proof.
  intros H fee. subst fee. rewrite (FeeForWeight_quot _ _ H).
  pose proof (Z.quot_rem' (s * wu) 1000) as Hqr.
  assert (Hr : Z.abs (Z.rem (s * wu) 1000) < 1000)
    by (apply Z.rem_bound_abs; lia).
  split; [| split].
  - intros Hpos.
    pose proof (Z.rem_nonneg (s * wu) 1000 ltac:(lia) Hpos). lia.
  - intros Hneg.
    pose proof (Z.rem_nonpos (s * wu) 1000 ltac:(lia) Hneg). lia.
  - apply FeeForVSize_quot, H.
Qed.

Lemma FeeForWeight_drops_the_fraction_witness :
  SatPerKWeight.FeeForWeight 253 1999 = 505
  /\ SatPerKWeight.FeeForWeight (-253) 1999 = -505.
Proof.
  pose proof (FeeForWeight_drops_the_fraction 253 1999) as Hup.
  pose proof (FeeForWeight_drops_the_fraction (-253) 1999) as Hdown.
  unfold in_int64, int64_min, int64_max in *. cbv zeta in *.
  specialize (Hup ltac:(lia)). specialize (Hdown ltac:(lia)).
  destruct Hup as (Hup & _ & _). destruct Hdown as (_ & Hdown & _).
  specialize (Hup ltac:(lia)). specialize (Hdown ltac:(lia)). lia.
Defined.

(** X3: a fee by weight is the fee by virtual size at the converted rate:
    for a rate in sat/kw and a size in vbytes, the fee over four weight
    units a vbyte is the fee over the vbytes at the rate in sat/kb,
    whatever overflows on the way. *)
Theorem fee_by_weight_is_fee_by_vsize (s : SatPerKWeight) (vbytes : Z) :
  SatPerKWeight.FeeForWeight s (mul64 vbytes WitnessScaleFactor)
  = SatPerKVByte.FeeForVSize (SatPerKWeight.FeePerKVByte s) vbytes.
Proof.
  unfold SatPerKWeight.FeeForWeight, SatPerKVByte.FeeForVSize,
    SatPerKWeight.FeePerKVByte.
  f_equal. unfold mul64 at 2 4.
  rewrite mul64_wrap_r, mul64_wrap_l. unfold mul64. f_equal. lia.
Qed.

(** X4: converting a rate from sat/kb to sat/kw never raises a fee: over
    the same size, the fee at the converted rate is at most the fee at
    the rate in sat/kb, and falls short of it by no more than the fee of
    3 sat/kb and one satoshi. *)
Theorem FeePerKWeight_never_overestimates (k : SatPerKVByte) (vbytes : Z) :
  0 <= k -> 0 <= vbytes ->
  in_int64 k -> in_int64 (WitnessScaleFactor * vbytes) ->
  in_int64 (k * vbytes) ->
  let byWeight :=
    SatPerKWeight.FeeForWeight (SatPerKVByte.FeePerKWeight k)
      (WitnessScaleFactor * vbytes) in
  let byVSize := SatPerKVByte.FeeForVSize k vbytes in
  byWeight <= byVSize
  /\ byVSize <= byWeight + SatPerKVByte.FeeForVSize 3 vbytes + 1.
Proof.
  intros Hk Hv Hkr Hwr Hkv byWeight byVSize. subst byWeight byVSize.
  unfold WitnessScaleFactor in *.
  unfold SatPerKVByte.FeePerKWeight, WitnessScaleFactor.
  rewrite (quo64_small k 4) by (assumption || lia).
  pose proof (Z.quot_rem' k 4) as Hqr.
  pose proof (Z.rem_bound_pos k 4 Hk ltac:(lia)) as Hr.
  assert (Hq : 0 <= Z.quot k 4) by (apply Z.quot_pos; lia).
  set (q := Z.quot k 4) in *. set (r := Z.rem k 4) in *.
  assert (Ha : 0 <= q * (4 * vbytes) <= k * vbytes) by nia.
  assert (H3 : 0 <= 3 * vbytes <= 4 * vbytes) by lia.
  assert (Hdiff : k * vbytes <= q * (4 * vbytes) + 3 * vbytes) by nia.
  unfold in_int64, int64_min, int64_max in *.
  rewrite FeeForWeight_quot
    by (unfold in_int64, int64_min, int64_max; lia).
  rewrite !FeeForVSize_quot
    by (unfold in_int64, int64_min, int64_max; lia).
  rewrite !Z.quot_div_nonneg by lia.
  pose proof (Z.div_mod (q * (4 * vbytes)) 1000 ltac:(lia)).
  pose proof (Z.mod_pos_bound (q * (4 * vbytes)) 1000 ltac:(lia)).
  pose proof (Z.div_mod (k * vbytes) 1000 ltac:(lia)).
  pose proof (Z.mod_pos_bound (k * vbytes) 1000 ltac:(lia)).
  pose proof (Z.div_mod (3 * vbytes) 1000 ltac:(lia)).
  pose proof (Z.mod_pos_bound (3 * vbytes) 1000 ltac:(lia)).
  lia.
Qed.

Lemma FeePerKWeight_never_overestimates_witness :
  SatPerKWeight.FeeForWeight (SatPerKVByte.FeePerKWeight 1003) (4 * 1000)
  <= SatPerKVByte.FeeForVSize 1003 1000.
Proof.
  apply (FeePerKWeight_never_overestimates 1003 1000);
    unfold in_int64, int64_min, int64_max, WitnessScaleFactor; lia.
Defined.

(** X5: no fee shrinks when the rate or the weight grows (neither being
    negative, the product an [int64]). *)
Theorem FeeForWeight_monotone (s s' : SatPerKWeight) (wu wu' : Z) :
  0 <= s <= s' -> 0 <= wu <= wu' -> in_int64 (s' * wu') ->
  SatPerKWeight.FeeForWeight s wu <= SatPerKWeight.FeeForWeight s' wu'.
Proof.
  intros Hs Hwu Hr.
  assert (Hle : 0 <= s * wu <= s' * wu') by nia.
  unfold in_int64, int64_min, int64_max in Hr.
  rewrite !FeeForWeight_quot
    by (unfold in_int64, int64_min, int64_max; lia).
  rewrite !Z.quot_div_nonneg by lia.
  apply Z.div_le_mono; lia.
Qed.

Lemma FeeForWeight_monotone_witness :
  SatPerKWeight.FeeForWeight 250 561 <= SatPerKWeight.FeeForWeight 253 724.
Proof.
  apply FeeForWeight_monotone;
    unfold in_int64, int64_min, int64_max; lia.
Defined.

(** X6: [AbsoluteFeePerKwFloor] is one satoshi a byte, as its comment
    says: at that rate a transaction of [v] vbytes ([4 * v] weight
    units) pays [v] satoshis, whether the fee is taken by weight or by
    virtual size; and [FeePerKwFloor] never asks less. *)
Theorem AbsoluteFeePerKwFloor_is_one_sat_per_byte (v wu : Z) :
  0 <= v -> in_int64 (1000 * v) ->
  0 <= wu -> in_int64 (FeePerKwFloor * wu) ->
  SatPerKVByte.FeeForVSize
    (SatPerKWeight.FeePerKVByte AbsoluteFeePerKwFloor) v = v
  /\ SatPerKWeight.FeeForWeight AbsoluteFeePerKwFloor
       (WitnessScaleFactor * v) = v
  /\ SatPerKWeight.FeeForWeight AbsoluteFeePerKwFloor wu
     <= SatPerKWeight.FeeForWeight FeePerKwFloor wu.
Proof.
  intros Hv Hr Hwu Hwr. split; [| split].
  - change (SatPerKWeight.FeePerKVByte AbsoluteFeePerKwFloor) with 1000.
    rewrite FeeForVSize_quot by exact Hr.
    rewrite Z.mul_comm. apply Z.quot_mul. lia.
  - unfold AbsoluteFeePerKwFloor, WitnessScaleFactor.
    rewrite FeeForWeight_quot
      by (replace (250 * (4 * v)) with (1000 * v) by lia; exact Hr).
    replace (250 * (4 * v)) with (v * 1000) by lia.
    apply Z.quot_mul. lia.
  - unfold AbsoluteFeePerKwFloor, FeePerKwFloor in *.
    unfold in_int64, int64_min, int64_max in Hwr.
    rewrite !FeeForWeight_quot
      by (unfold in_int64, int64_min, int64_max; lia).
    rewrite !Z.quot_div_nonneg by lia.
    apply Z.div_le_mono; lia.
Qed.

Lemma AbsoluteFeePerKwFloor_is_one_sat_per_byte_witness :
  SatPerKVByte.FeeForVSize
    (SatPerKWeight.FeePerKVByte AbsoluteFeePerKwFloor) 141 = 141
  /\ SatPerKWeight.FeeForWeight AbsoluteFeePerKwFloor
       (WitnessScaleFactor * 141) = 141
  /\ SatPerKWeight.FeeForWeight AbsoluteFeePerKwFloor 561
     <= SatPerKWeight.FeeForWeight FeePerKwFloor 561.
Proof.
  apply (AbsoluteFeePerKwFloor_is_one_sat_per_byte 141 561);
    unfold in_int64, int64_min, int64_max, FeePerKwFloor; lia.
Defined.

(** The characters of a string, one after the other. *)
Lemma list_ascii_of_string_app (s1 s2 : string) :
  Stdlib.Strings.String.list_ascii_of_string (s1 +:+ s2)
  = (Stdlib.Strings.String.list_ascii_of_string s1 ++ Stdlib.Strings.String.list_ascii_of_string s2)%list.
Proof.
  induction s1 as [| c s1 IH]; [reflexivity |].
  simpl. f_equal. exact IH.
Qed.

Lemma list_ascii_of_string_inj (s1 s2 : string) :
  Stdlib.Strings.String.list_ascii_of_string s1 = Stdlib.Strings.String.list_ascii_of_string s2 -> s1 = s2.
Proof.
  intros H. rewrite <- (Stdlib.Strings.String.string_of_list_ascii_of_string s1),
    <- (Stdlib.Strings.String.string_of_list_ascii_of_string s2), H. reflexivity.
Qed.

(** X7: the printed form of a rate tells the rate and the unit: two rates
    in the same unit print alike only when they are the same rate, and
    no rate in sat/kb prints as a rate in sat/kw does. *)
Theorem String_tells_rate_and_unit (a b : Z) :
  (SatPerKVByte.String a = SatPerKVByte.String b -> a = b)
  /\ (SatPerKWeight.String a = SatPerKWeight.String b -> a = b)
  /\ SatPerKVByte.String a <> SatPerKWeight.String b.
Proof.
  unfold SatPerKVByte.String, SatPerKWeight.String.
  split; [| split]; intros H;
    apply (f_equal Stdlib.Strings.String.list_ascii_of_string) in H;
    rewrite !list_ascii_of_string_app in H;
    apply app_inj_2 in H; try reflexivity;
    destruct H as [Hnum Hunit].
  - apply list_ascii_of_string_inj in Hnum.
    exact (pretty_Z_inj _ _ Hnum).
  - apply list_ascii_of_string_inj in Hnum.
    exact (pretty_Z_inj _ _ Hnum).
  - discriminate Hunit.
Qed.

End ChainFee.

(** ** Package netann *)

Module NetAnn.
Import GoInt.
Local Open Scope Z_scope.

Section NodeAnnouncement.

(** The types of the announcement's fields that the modifiers only move
    around: [lnwire.Sig], [lnwire.RawFeatureVector] (held by reference),
    [color.RGBA], [lnwire.NodeAlias] and [net.Addr]. *)
Context {Sig RawFeatureVector RGBA NodeAlias Addr : Type}.

(** [lnwire.NodeAnnouncement], with the fields this package writes.
    [Timestamp] is a [uint32]. *)
Record NodeAnnouncement : Type := mkNodeAnnouncement {
  Signature : Sig;
  Features : RawFeatureVector;
  Timestamp : Z;
  RGBColor : RGBA;
  Alias : NodeAlias;
  Addresses : list Addr;
}.

(** A [NodeAnnModifier] changes the announcement it is handed a reference
    to: here, a function from the announcement found to the one left. *)
Definition NodeAnnModifier : Type := NodeAnnouncement -> NodeAnnouncement.

Definition NodeAnnSetAlias (alias : NodeAlias) : NodeAnnModifier :=
  fun nodeAnn =>
    mkNodeAnnouncement (Signature nodeAnn) (Features nodeAnn)
      (Timestamp nodeAnn) (RGBColor nodeAnn) alias (Addresses nodeAnn).

Definition NodeAnnSetAddrs (addrs : list Addr) : NodeAnnModifier :=
  fun nodeAnn =>
    mkNodeAnnouncement (Signature nodeAnn) (Features nodeAnn)
      (Timestamp nodeAnn) (RGBColor nodeAnn) (Alias nodeAnn) addrs.

Definition NodeAnnSetColor (newColor : RGBA) : NodeAnnModifier :=
  fun nodeAnn =>
    mkNodeAnnouncement (Signature nodeAnn) (Features nodeAnn)
      (Timestamp nodeAnn) newColor (Alias nodeAnn) (Addresses nodeAnn).

Definition NodeAnnSetFeatures (features : RawFeatureVector) : NodeAnnModifier :=
  fun nodeAnn =>
    mkNodeAnnouncement (Signature nodeAnn) features
      (Timestamp nodeAnn) (RGBColor nodeAnn) (Alias nodeAnn)
      (Addresses nodeAnn).

(** [NodeAnnSetTimestamp], run when [time.Now().Unix()] returns [now]
    (an [int64], converted to [uint32]). *)
Definition NodeAnnSetTimestamp (now : Z) : NodeAnnModifier :=
  fun nodeAnn =>
    let newTimestamp := uint32 now in
    let newTimestamp :=
      if newTimestamp <=? Timestamp nodeAnn
      then uint32 (Timestamp nodeAnn + 1)
      else newTimestamp in
    mkNodeAnnouncement (Signature nodeAnn) (Features nodeAnn)
      newTimestamp (RGBColor nodeAnn) (Alias nodeAnn) (Addresses nodeAnn).

(** The timestamp the modifier leaves, by cases. *)
Lemma NodeAnnSetTimestamp_cases (now : Z) (nodeAnn : NodeAnnouncement) :
  (uint32 now <= Timestamp nodeAnn
   /\ Timestamp (NodeAnnSetTimestamp now nodeAnn)
      = uint32 (Timestamp nodeAnn + 1))
  \/ (Timestamp nodeAnn < uint32 now
      /\ Timestamp (NodeAnnSetTimestamp now nodeAnn) = uint32 now).
Proof.
  unfold NodeAnnSetTimestamp; cbn.
  destruct (Z.leb_spec (uint32 now) (Timestamp nodeAnn)); [left | right];
    split; (lia || reflexivity).
Qed.

(** Nothing but the timestamp is written. *)
Lemma NodeAnnSetTimestamp_frame (now : Z) (nodeAnn : NodeAnnouncement) :
  let nodeAnn' := NodeAnnSetTimestamp now nodeAnn in
  Signature nodeAnn' = Signature nodeAnn
  /\ Features nodeAnn' = Features nodeAnn
  /\ RGBColor nodeAnn' = RGBColor nodeAnn
  /\ Alias nodeAnn' = Alias nodeAnn
  /\ Addresses nodeAnn' = Addresses nodeAnn.
Proof. cbn. repeat split. Qed.

(** ** C9 *)

(** C9: for an announcement whose timestamp [t] is below [2^32 - 1] and
    whatever the clock reads, [NodeAnnSetTimestamp] leaves a timestamp
    strictly greater than [t]: the Unix time (as the [uint32] the code
    converts it to, which is the time itself for a clock inside
    [0, 2^32)) when that is greater than [t], and [t + 1] otherwise.  For
    an announcement whose timestamp is [2^32 - 1] the increment wraps to
    0, and the timestamp does not increase. *)
Theorem NodeAnnSetTimestamp_strictly_increases (now : Z) :
  (forall nodeAnn : NodeAnnouncement,
     0 <= Timestamp nodeAnn < 2 ^ 32 - 1 ->
     let t := Timestamp nodeAnn in
     let t' := Timestamp (NodeAnnSetTimestamp now nodeAnn) in
     t < t'
     /\ (t < uint32 now -> t' = uint32 now)
     /\ (uint32 now <= t -> t' = t + 1)
     /\ (0 <= now < 2 ^ 32 ->
         (t < now -> t' = now) /\ (now <= t -> t' = t + 1)))
  /\ (forall nodeAnn : NodeAnnouncement,
        Timestamp nodeAnn = 2 ^ 32 - 1 ->
        Timestamp (NodeAnnSetTimestamp now nodeAnn) = 0
        /\ ~ Timestamp nodeAnn < Timestamp (NodeAnnSetTimestamp now nodeAnn)).
Proof.
  pose proof (uint32_range now) as Hnow.
  unfold in_uint32, uint32_max in Hnow.
  assert (Hclock : 0 <= now < 2 ^ 32 -> uint32 now = now).
  { intros Hrange. apply uint32_id. unfold in_uint32, uint32_max. lia. }
  split.
  - intros nodeAnn Ht t t'.
    assert (Hinc : uint32 (t + 1) = t + 1).
    { apply uint32_id. unfold in_uint32, uint32_max. subst t. lia. }
    destruct (NodeAnnSetTimestamp_cases now nodeAnn)
      as [[Hcmp Heq] | [Hcmp Heq]];
      fold t in Hcmp; fold t t' in Heq; rewrite ?Hinc in Heq;
      repeat (split || intro); lia.
  - intros nodeAnn Hmax.
    assert (Hzero : Timestamp (NodeAnnSetTimestamp now nodeAnn) = 0).
    { destruct (NodeAnnSetTimestamp_cases now nodeAnn)
        as [[_ ->] | [Hlt _]].
      - rewrite Hmax. reflexivity.
      - lia. }
    rewrite Hzero, Hmax. split; [reflexivity | lia].
Qed.

End NodeAnnouncement.

(** An announcement last stamped at [1700000000], one stamped in the
    future, and one at the top of [uint32]. *)
Definition annAt (t : Z) : @NodeAnnouncement unit unit unit unit unit :=
  mkNodeAnnouncement tt tt t tt tt [].

Example clock_ahead :
  Timestamp (NodeAnnSetTimestamp 1700000100 (annAt 1700000000)) = 1700000100.
Proof. reflexivity. Qed.

Example clock_behind :
  Timestamp (NodeAnnSetTimestamp 1700000100 (annAt 1800000000)) = 1800000001.
Proof. reflexivity. Qed.

Example clock_past_2106 :
  Timestamp (NodeAnnSetTimestamp (2 ^ 32 + 5) (annAt 10)) = 11.
Proof. reflexivity. Qed.

Example timestamp_wraps :
  Timestamp (NodeAnnSetTimestamp 1700000100 (annAt (2 ^ 32 - 1))) = 0.
Proof. reflexivity. Qed.

Lemma NodeAnnSetTimestamp_strictly_increases_witness :
  1700000000 < Timestamp (NodeAnnSetTimestamp 1700000100 (annAt 1700000000))
  /\ Timestamp (NodeAnnSetTimestamp 1700000100 (annAt (2 ^ 32 - 1))) = 0.
Proof.
  destruct (@NodeAnnSetTimestamp_strictly_increases unit unit unit unit unit
              1700000100) as [Hbelow Htop]. split.
  - apply (Hbelow (annAt 1700000000)). cbn. lia.
  - apply (Htop (annAt (2 ^ 32 - 1))). reflexivity.
Defined.

(** ** Announcements: signing, and modifiers one after the other *)

Section Signing.

Context {Sig RawFeatureVector RGBA NodeAlias Addr : Type}.

(** What [SignNodeAnnouncement] passes on: the [lnwallet.MessageSigner],
    the [keychain.KeyLocator], the DER-encoded signature that
    [SignAnnouncement] returns, and Go's [error] values. *)
Context {MessageSigner KeyLocator DERSignature error : Type}.

Implicit Types nodeAnn : @NodeAnnouncement Sig RawFeatureVector RGBA
                           NodeAlias Addr.

(** The two functions [SignNodeAnnouncement] calls, from files that are not
    among the sources: [SignAnnouncement], which signs the digest of the
    announcement it is handed, and [lnwire.NewSigFromSignature]; each
    returns a value and an [error]. *)
Variable SignAnnouncement :
  MessageSigner -> KeyLocator ->
  @NodeAnnouncement Sig RawFeatureVector RGBA NodeAlias Addr ->
  DERSignature * option error.
Variable NewSigFromSignature : DERSignature -> Sig * option error.

(** [SignNodeAnnouncement]: the announcement it leaves behind [nodeAnn],
    and the [error] it returns. *)
Definition SignNodeAnnouncement (signer : MessageSigner)
    (keyLoc : KeyLocator) nodeAnn
  : @NodeAnnouncement Sig RawFeatureVector RGBA NodeAlias Addr
    * option error :=
  let '(sig, err) := SignAnnouncement signer keyLoc nodeAnn in
  match err with
  | Some e => (nodeAnn, Some e)
  | None =>
      let '(signature, err) := NewSigFromSignature sig in
      (mkNodeAnnouncement signature (Features nodeAnn) (Timestamp nodeAnn)
         (RGBColor nodeAnn) (Alias nodeAnn) (Addresses nodeAnn), err)
  end.

(** [NodeAnnSetTimestamp] run once for each reading of the clock, in
    turn. *)
Definition stampAt (clocks : list Z) nodeAnn
  : @NodeAnnouncement Sig RawFeatureVector RGBA NodeAlias Addr :=
  fold_left (fun ann now => NodeAnnSetTimestamp now ann) clocks nodeAnn.

(** Below the top of [uint32], the new timestamp is the later of the
    clock and the old timestamp plus one. *)
Lemma NodeAnnSetTimestamp_max (now : Z) nodeAnn :
  0 <= Timestamp nodeAnn < 2 ^ 32 - 1 ->
  Timestamp (NodeAnnSetTimestamp now nodeAnn)
  = Z.max (uint32 now) (Timestamp nodeAnn + 1).
Proof.
  intros Ht.
  assert (Hinc : uint32 (Timestamp nodeAnn + 1) = Timestamp nodeAnn + 1).
  { apply uint32_id. unfold in_uint32, uint32_max. lia. }
  destruct (NodeAnnSetTimestamp_cases now nodeAnn) as [[Hc ->] | [Hc ->]];
    rewrite ?Hinc; lia.
Qed.

Lemma stampAt_bounds (clocks : list Z) (top : Z) nodeAnn :
  0 <= Timestamp nodeAnn <= top ->
  Forall (fun now => uint32 now <= top) clocks ->
  top + Z.of_nat (length clocks) <= 2 ^ 32 - 1 ->
  Timestamp nodeAnn + Z.of_nat (length clocks)
  <= Timestamp (stampAt clocks nodeAnn)
  <= top + Z.of_nat (length clocks).
Proof.
  revert top nodeAnn.
  induction clocks as [| now clocks IH]; intros top nodeAnn Ht Hclocks Htop.
  - cbn. lia.
  - apply Forall_cons in Hclocks as [Hnow Hclocks].
    cbn [stampAt fold_left length] in *.
    pose proof (NodeAnnSetTimestamp_max now nodeAnn ltac:(lia)) as Hstep.
    specialize (IH (top + 1) (NodeAnnSetTimestamp now nodeAnn)).
    unfold stampAt in IH. rewrite Hstep in IH.
    assert (Hmono : Forall (fun now => uint32 now <= top + 1) clocks).
    { eapply Forall_impl; [exact Hclocks |]. cbv beta. intros; lia. }
    specialize (IH ltac:(lia) Hmono ltac:(lia)). lia.
Qed.

Lemma stampAt_app (clocks1 clocks2 : list Z) nodeAnn :
  stampAt (clocks1 ++ clocks2) nodeAnn
  = stampAt clocks2 (stampAt clocks1 nodeAnn).
Proof. apply fold_left_app. Qed.

(** X8: stamped again and again, an announcement gets a later timestamp
    each time, whatever the clock does in between (standing still, going
    back): as long as the readings and the first timestamp leave room
    below the top of [uint32] for one step a reading, the timestamp after
    any further readings is ahead of the timestamp before them by at
    least their number. *)
Theorem stampAt_strictly_increases
    (clocks1 clocks2 : list Z) (top : Z) nodeAnn :
  0 <= Timestamp nodeAnn <= top ->
  Forall (fun now => uint32 now <= top) (clocks1 ++ clocks2) ->
  top + Z.of_nat (length (clocks1 ++ clocks2)) <= 2 ^ 32 - 1 ->
  Timestamp (stampAt clocks1 nodeAnn) + Z.of_nat (length clocks2)
  <= Timestamp (stampAt (clocks1 ++ clocks2) nodeAnn).
Proof.
  intros Ht Hclocks Htop.
  apply Forall_app in Hclocks as [Hclocks1 Hclocks2].
  rewrite length_app, Nat2Z.inj_add in Htop.
  pose proof (stampAt_bounds clocks1 top nodeAnn Ht Hclocks1 ltac:(lia))
    as Hmid.
  rewrite stampAt_app.
  assert (Hmono : Forall (fun now => uint32 now
                                     <= top + Z.of_nat (length clocks1))
                    clocks2).
  { eapply Forall_impl; [exact Hclocks2 |]. cbv beta. intros; lia. }
  pose proof (stampAt_bounds clocks2 (top + Z.of_nat (length clocks1))
                (stampAt clocks1 nodeAnn) ltac:(lia) Hmono ltac:(lia)).
  lia.
Qed.

(** X9: the modifiers of different fields can be applied in any order, and
    of two modifiers of one field the later one stands. *)
Theorem modifiers_commute_and_override
    (alias alias' : NodeAlias) (addrs addrs' : list Addr)
    (newColor newColor' : RGBA) (features features' : RawFeatureVector)
    (now : Z) nodeAnn :
  let setAlias := NodeAnnSetAlias alias in
  let setAddrs := NodeAnnSetAddrs addrs in
  let setColor := NodeAnnSetColor newColor in
  let setFeatures := NodeAnnSetFeatures features in
  let setTimestamp := NodeAnnSetTimestamp now in
  (setAlias (setAddrs nodeAnn) = setAddrs (setAlias nodeAnn)
   /\ setAlias (setColor nodeAnn) = setColor (setAlias nodeAnn)
   /\ setAlias (setFeatures nodeAnn) = setFeatures (setAlias nodeAnn)
   /\ setAlias (setTimestamp nodeAnn) = setTimestamp (setAlias nodeAnn)
   /\ setAddrs (setColor nodeAnn) = setColor (setAddrs nodeAnn)
   /\ setAddrs (setFeatures nodeAnn) = setFeatures (setAddrs nodeAnn)
   /\ setAddrs (setTimestamp nodeAnn) = setTimestamp (setAddrs nodeAnn)
   /\ setColor (setFeatures nodeAnn) = setFeatures (setColor nodeAnn)
   /\ setColor (setTimestamp nodeAnn) = setTimestamp (setColor nodeAnn)
   /\ setFeatures (setTimestamp nodeAnn)
      = setTimestamp (setFeatures nodeAnn))
  /\ (NodeAnnSetAlias alias' (setAlias nodeAnn)
      = NodeAnnSetAlias alias' nodeAnn
      /\ NodeAnnSetAddrs addrs' (setAddrs nodeAnn)
         = NodeAnnSetAddrs addrs' nodeAnn
      /\ NodeAnnSetColor newColor' (setColor nodeAnn)
         = NodeAnnSetColor newColor' nodeAnn
      /\ NodeAnnSetFeatures features' (setFeatures nodeAnn)
         = NodeAnnSetFeatures features' nodeAnn).
Proof. destruct nodeAnn. cbv zeta. repeat split. Qed.

(** X10: [SignNodeAnnouncement] writes nothing but the signature.  When
    signing fails it returns the signer's error and leaves the
    announcement as it was.  It returns no error only when both signing
    and the conversion succeeded, and then the announcement carries the
    converted signature of the announcement as it was; when the
    conversion fails, its error is returned and the signature has been
    overwritten all the same, with what the conversion returned. *)
Theorem SignNodeAnnouncement_outcomes
    (signer : MessageSigner) (keyLoc : KeyLocator) nodeAnn :
  let signed := SignAnnouncement signer keyLoc nodeAnn in
  let converted := NewSigFromSignature signed.1 in
  let out := SignNodeAnnouncement signer keyLoc nodeAnn in
  (Features out.1 = Features nodeAnn
   /\ Timestamp out.1 = Timestamp nodeAnn
   /\ RGBColor out.1 = RGBColor nodeAnn
   /\ Alias out.1 = Alias nodeAnn
   /\ Addresses out.1 = Addresses nodeAnn)
  /\ (forall e, signed.2 = Some e -> out = (nodeAnn, Some e))
  /\ (signed.2 = None ->
      Signature out.1 = converted.1 /\ out.2 = converted.2)
  /\ (out.2 = None <-> signed.2 = None /\ converted.2 = None).
Proof.
  cbv zeta. unfold SignNodeAnnouncement.
  destruct (SignAnnouncement signer keyLoc nodeAnn) as [sig [e |]]; cbn.
  - repeat split; try discriminate.
    + intros e' [= <-]. reflexivity.
    + intros [H _]. discriminate H.
  - destruct (NewSigFromSignature sig) as [signature err]; cbn.
    repeat split; try discriminate; tauto.
Qed.

End Signing.

(** Stamped at four readings of a clock that stalls and goes back. *)
Lemma stampAt_strictly_increases_witness :
  Timestamp (stampAt [1700000100; 1700000050] (annAt 1700000000)) + 2
  <= Timestamp
       (stampAt ([1700000100; 1700000050] ++ [1700000050; 1700000200])
          (annAt 1700000000)).
Proof.
  apply (stampAt_strictly_increases [1700000100; 1700000050]
           [1700000050; 1700000200] 1700000200 (annAt 1700000000)).
  - cbn. lia.
  - repeat constructor; vm_compute; discriminate.
  - cbn. lia.
Defined.

Example stampAt_stalled_clock :
  Timestamp (stampAt [1700000100; 1700000100; 1700000100] (annAt 0))
  = 1700000102.
Proof. reflexivity. Qed.

End NetAnn.

(** ** Package input *)

Module Input.
Import GoInt.
Local Open Scope Z_scope.

(** *** References

    Go objects live in a store, each kind of object in a map of its own
    from locations to values.  A reference is a location, or the address
    of a field of an input held in the store: [&i.outpoint] and
    [&i.signDesc] point inside the input they are taken from.  Reading
    through a reference to nothing (a [nil] pointer) panics: the models
    below return [None]. *)

Definition loc : Type := positive.

(** [*inputKit]: the embedded kit of a [BaseInput] or of an
    [HtlcSucceedInput]. *)
Inductive InputKitRef : Type :=
| KitOfBase (l : loc)
| KitOfHtlc (l : loc).

#[global] Instance InputKitRef_eq_dec : EqDecision InputKitRef.
Proof. solve_decision. Defined.

(** [*wire.OutPoint] *)
Inductive OutPointRef : Type :=
| OutPointAt (l : loc)
| OutpointOf (i : InputKitRef).

(** [*SignDescriptor] *)
Inductive SignDescRef : Type :=
| SignDescAt (l : loc)
| SignDescOf (i : InputKitRef).

(** [wire.OutPoint]: the hash of a transaction (32 bytes) and the index
    (a [uint32]) of one of its outputs; an array and an integer, no
    reference inside. *)
Record OutPoint : Type := mkOutPoint {
  Hash : list Byte.byte;
  Index : Z;
}.

(** [wire.TxWitness] *)
Definition TxWitness : Type := list (list Byte.byte).

(** [Script]: what [CraftInputScript] returns a reference to. *)
Record Script : Type := mkScript {
  Witness : TxWitness;
  SigScript : list Byte.byte;
}.

Section Model.

(** What the package only passes on: the [Signer] capability, the
    transaction [wire.MsgTx], the reference [*txscript.TxSigHashes] to the
    sighash cache of a transaction, the key reference of a descriptor, Go's
    [error] values, and the tags of [WitnessType]. *)
Context {Signer MsgTx TxSigHashes KeyDescriptor error WitnessType : Type}.

(** Modelled from the spec: [SignDescriptor], whose declaration is in a
    file of the package that is not among the sources.  "Value bundle containing: the key reference used
    to derive/sign, the redeem/witness script template, the output value,
    the signature-hash type, and a mutable slot for a shared sighash-cache
    reference and the target input index within the spending
    transaction." *)
Record SignDescriptor : Type := mkSignDescriptor {
  KeyDesc : KeyDescriptor;
  WitnessScript : list Byte.byte;
  Output : Z;
  HashType : Z;
  SigHashes : TxSigHashes;
  InputIndex : Z;
}.

(** [desc.SigHashes = hashCache] *)
Definition setSigHashes (desc : SignDescriptor) (hashCache : TxSigHashes)
  : SignDescriptor :=
  mkSignDescriptor (KeyDesc desc) (WitnessScript desc) (Output desc)
    (HashType desc) hashCache (InputIndex desc).

(** [desc.InputIndex = txinIdx] *)
Definition setInputIndex (desc : SignDescriptor) (txinIdx : Z)
  : SignDescriptor :=
  mkSignDescriptor (KeyDesc desc) (WitnessScript desc) (Output desc)
    (HashType desc) (SigHashes desc) txinIdx.

Record inputKit : Type := mkInputKit {
  outpoint : OutPoint;
  witnessType : WitnessType;
  signDesc : SignDescriptor;
  heightHint : Z;
  blockToMaturity : Z;
}.

(** [BaseInput] embeds an [inputKit]. *)
Record BaseInput : Type := mkBaseInput {
  base_inputKit : inputKit;
}.

(** [HtlcSucceedInput] embeds an [inputKit] and adds the preimage, a
    slice: its bytes, which no operation here writes to, are given as a
    list. *)
Record HtlcSucceedInput : Type := mkHtlcSucceedInput {
  htlc_inputKit : inputKit;
  preimage : list Byte.byte;
}.

(** The store. *)
Record World : Type := mkWorld {
  outPoints : gmap loc OutPoint;
  signDescs : gmap loc SignDescriptor;
  msgTxs : gmap loc MsgTx;
  baseInputs : gmap loc BaseInput;
  htlcInputs : gmap loc HtlcSucceedInput;
}.

Definition withOutPoints (m : gmap loc OutPoint) (w : World) : World :=
  mkWorld m (signDescs w) (msgTxs w) (baseInputs w) (htlcInputs w).

Definition withSignDescs (m : gmap loc SignDescriptor) (w : World) : World :=
  mkWorld (outPoints w) m (msgTxs w) (baseInputs w) (htlcInputs w).

Definition withMsgTxs (m : gmap loc MsgTx) (w : World) : World :=
  mkWorld (outPoints w) (signDescs w) m (baseInputs w) (htlcInputs w).

Definition withBaseInputs (m : gmap loc BaseInput) (w : World) : World :=
  mkWorld (outPoints w) (signDescs w) (msgTxs w) m (htlcInputs w).

Definition withHtlcInputs (m : gmap loc HtlcSucceedInput) (w : World) : World :=
  mkWorld (outPoints w) (signDescs w) (msgTxs w) (baseInputs w) m.

(** *** Reading and writing through references *)

Definition readKit (i : InputKitRef) (w : World) : option inputKit :=
  match i with
  | KitOfBase l => base_inputKit <$> baseInputs w !! l
  | KitOfHtlc l => htlc_inputKit <$> htlcInputs w !! l
  end.

Definition writeKit (i : InputKitRef) (k : inputKit) (w : World)
  : option World :=
  match i with
  | KitOfBase l =>
      _ ← baseInputs w !! l;
      Some (withBaseInputs (<[l := mkBaseInput k]> (baseInputs w)) w)
  | KitOfHtlc l =>
      h ← htlcInputs w !! l;
      Some (withHtlcInputs
              (<[l := mkHtlcSucceedInput k (preimage h)]> (htlcInputs w)) w)
  end.

Definition readOutPoint (p : OutPointRef) (w : World) : option OutPoint :=
  match p with
  | OutPointAt l => outPoints w !! l
  | OutpointOf i => outpoint <$> readKit i w
  end.

Definition writeOutPoint (p : OutPointRef) (o : OutPoint) (w : World)
  : option World :=
  match p with
  | OutPointAt l =>
      _ ← outPoints w !! l;
      Some (withOutPoints (<[l := o]> (outPoints w)) w)
  | OutpointOf i =>
      k ← readKit i w;
      writeKit i (mkInputKit o (witnessType k) (signDesc k) (heightHint k)
                    (blockToMaturity k)) w
  end.

Definition readSignDesc (p : SignDescRef) (w : World)
  : option SignDescriptor :=
  match p with
  | SignDescAt l => signDescs w !! l
  | SignDescOf i => signDesc <$> readKit i w
  end.

Definition writeSignDesc (p : SignDescRef) (d : SignDescriptor) (w : World)
  : option World :=
  match p with
  | SignDescAt l =>
      _ ← signDescs w !! l;
      Some (withSignDescs (<[l := d]> (signDescs w)) w)
  | SignDescOf i =>
      k ← readKit i w;
      writeKit i (mkInputKit (outpoint k) (witnessType k) d (heightHint k)
                    (blockToMaturity k)) w
  end.

Definition readTx (t : loc) (w : World) : option MsgTx := msgTxs w !! t.

Definition writeTx (t : loc) (tx : MsgTx) (w : World) : option World :=
  _ ← msgTxs w !! t;
  Some (withMsgTxs (<[t := tx]> (msgTxs w)) w).

(** *** Computations over the store

    A computation takes the store and returns a value and the store it
    leaves, or panics. *)

Definition M (A : Type) : Type := World -> option (A * World).

Definition ret {A : Type} (a : A) : M A := fun w => Some (a, w).

Definition bind {A B : Type} (m : M A) (f : A -> M B) : M B :=
  fun w => match m w with
           | Some (a, w') => f a w'
           | None => None
           end.

Definition load {A : Type} (read : World -> option A) : M A :=
  fun w => match read w with
           | Some a => Some (a, w)
           | None => None
           end.

Definition store (write : World -> option World) : M unit :=
  fun w => match write w with
           | Some w' => Some (tt, w')
           | None => None
           end.

Local Notation "x <- m ;; k" := (bind m (fun x => k))
  (at level 100, m at next level, right associativity).
Local Notation "m ;;; k" := (bind m (fun _ => k))
  (at level 100, right associativity).

(** A fresh object: [&BaseInput{...}], or the variable a returned
    [BaseInput] is kept in. *)
Definition allocBase (b : BaseInput) : M loc :=
  fun w =>
    let l := fresh (dom (baseInputs w)) in
    Some (l, withBaseInputs (<[l := b]> (baseInputs w)) w).

Definition allocHtlc (h : HtlcSucceedInput) : M loc :=
  fun w =>
    let l := fresh (dom (htlcInputs w)) in
    Some (l, withHtlcInputs (<[l := h]> (htlcInputs w)) w).

(** *** The collaborators

    What a Go function does to the objects it is handed references to is
    given as a function from the values it finds there to the values it
    leaves there. *)

(** The pair of a [*Script] and an [error] that [CraftInputScript]
    returns: either may be [nil]. *)
Definition ScriptResult : Type := option Script * option error.

(** The function value [WitnessGenerator] returns, closed over the signer
    and the reference to a descriptor: called with
    [(tx, hc, inputIndex)], it finds a transaction behind [tx] and a
    descriptor behind its reference, and leaves a result, a transaction
    and a descriptor. *)
Definition WitnessGeneratorFn : Type :=
  MsgTx -> TxSigHashes -> Z -> SignDescriptor ->
  ScriptResult * MsgTx * SignDescriptor.

(** What the file uses of the rest of the package, from files that are
    not among the sources: the witness type
    [HtlcAcceptedRemoteSuccess], the method [WitnessGenerator] of a
    witness type, and [SenderHtlcSpendRedeem]
    [(signer, signDesc, sweepTx, paymentPreimage)], which returns
    [(wire.TxWitness, error)] and is handed references to a descriptor and
    to the transaction. *)
Class Collaborators : Type := {
  HtlcAcceptedRemoteSuccess : WitnessType;
  WitnessGenerator : WitnessType -> Signer -> WitnessGeneratorFn;
  SenderHtlcSpendRedeem :
    Signer -> SignDescriptor -> MsgTx -> list Byte.byte ->
    (TxWitness * option error) * SignDescriptor * MsgTx;
}.

(** Modelled from the spec: the witness generators and
    [SenderHtlcSpendRedeem], whose bodies are not among the sources.
    Each witness type is bound to "a pure function from transaction
    context + sign descriptor to a witness/script", with "side effects:
    none beyond invoking the Signer"; the sighash-cache reference and the
    input index of the descriptor "are set immediately before use".  So a
    generator binds the two fields of the descriptor behind its reference
    to the call and returns what the strategy of the type makes of the
    transaction and the bound descriptor, and [SenderHtlcSpendRedeem]
    returns what the redemption makes of the descriptor, the transaction
    and the preimage it is handed; neither writes to the transaction. *)
Definition pureCollaborators (htlcAcceptedRemoteSuccess : WitnessType)
    (strategy : WitnessType -> Signer -> MsgTx -> SignDescriptor ->
                ScriptResult)
    (redeem : Signer -> SignDescriptor -> MsgTx -> list Byte.byte ->
              TxWitness * option error)
  : Collaborators :=
  {| HtlcAcceptedRemoteSuccess := htlcAcceptedRemoteSuccess;
     WitnessGenerator := fun wt signer tx hc inputIndex d =>
       let desc := setInputIndex (setSigHashes d hc) inputIndex in
       (strategy wt signer tx desc, tx, desc);
     SenderHtlcSpendRedeem := fun signer desc tx paymentPreimage =>
       (redeem signer desc tx paymentPreimage, desc, tx) |}.

Context {collaborators : Collaborators}.

(** Calling [witnessFunc(txn, hashCache, txinIdx)], the generator holding
    the reference [desc]. *)
Definition callWitnessFunc (witnessFunc : WitnessGeneratorFn)
    (desc : SignDescRef) (txn : loc) (hashCache : TxSigHashes) (txinIdx : Z)
  : M ScriptResult :=
  tx <- load (readTx txn) ;;
  d <- load (readSignDesc desc) ;;
  let '(res, tx', d') := witnessFunc tx hashCache txinIdx d in
  store (writeTx txn tx') ;;;
  store (writeSignDesc desc d') ;;;
  ret res.

(** Calling [SenderHtlcSpendRedeem(signer, &desc, txn, preimage)] for a
    local [desc]: what the callee leaves in [desc] is dropped with it. *)
Definition callSenderHtlcSpendRedeem (signer : Signer)
    (desc : SignDescriptor) (txn : loc) (paymentPreimage : list Byte.byte)
  : M (TxWitness * option error) :=
  tx <- load (readTx txn) ;;
  let '(res, _, tx') := SenderHtlcSpendRedeem signer desc tx paymentPreimage in
  store (writeTx txn tx') ;;;
  ret res.

(** *** [inputKit] *)

Definition inputKit_OutPoint (i : InputKitRef) : M OutPointRef :=
  _ <- load (readKit i) ;; ret (OutpointOf i).

Definition inputKit_WitnessType (i : InputKitRef) : M WitnessType :=
  k <- load (readKit i) ;; ret (witnessType k).

Definition inputKit_SignDesc (i : InputKitRef) : M SignDescRef :=
  _ <- load (readKit i) ;; ret (SignDescOf i).

Definition inputKit_HeightHint (i : InputKitRef) : M Z :=
  k <- load (readKit i) ;; ret (heightHint k).

Definition inputKit_BlocksToMaturity (i : InputKitRef) : M Z :=
  k <- load (readKit i) ;; ret (blockToMaturity k).

(** *** [BaseInput] *)

(** The fields the composite literal leaves out are zero. *)
Definition MakeBaseInput (outpoint : OutPointRef) (witnessType : WitnessType)
    (signDescriptor : SignDescRef) (heightHint : Z) : M BaseInput :=
  op <- load (readOutPoint outpoint) ;;
  sd <- load (readSignDesc signDescriptor) ;;
  ret (mkBaseInput (mkInputKit op witnessType sd heightHint 0)).

Definition NewBaseInput (outpoint : OutPointRef) (witnessType : WitnessType)
    (signDescriptor : SignDescRef) (heightHint : Z) : M loc :=
  input <- MakeBaseInput outpoint witnessType signDescriptor heightHint ;;
  allocBase input.

Definition NewCsvInput (outpoint : OutPointRef) (witnessType : WitnessType)
    (signDescriptor : SignDescRef) (heightHint : Z) (blockToMaturity : Z)
  : M loc :=
  op <- load (readOutPoint outpoint) ;;
  sd <- load (readSignDesc signDescriptor) ;;
  allocBase
    (mkBaseInput (mkInputKit op witnessType sd heightHint blockToMaturity)).

Definition BaseInput_CraftInputScript (bi : loc) (signer : Signer)
    (txn : loc) (hashCache : TxSigHashes) (txinIdx : Z) : M ScriptResult :=
  b <- load (fun w => baseInputs w !! bi) ;;
  desc <- inputKit_SignDesc (KitOfBase bi) ;;
  let witnessFunc :=
    WitnessGenerator (witnessType (base_inputKit b)) signer in
  callWitnessFunc witnessFunc desc txn hashCache txinIdx.

(** *** [HtlcSucceedInput] *)

Definition MakeHtlcSucceedInput (outpoint : OutPointRef)
    (signDescriptor : SignDescRef) (preimage : list Byte.byte)
    (heightHint blocksToMaturity : Z) : M HtlcSucceedInput :=
  op <- load (readOutPoint outpoint) ;;
  sd <- load (readSignDesc signDescriptor) ;;
  ret (mkHtlcSucceedInput
         (mkInputKit op HtlcAcceptedRemoteSuccess sd heightHint
            blocksToMaturity)
         preimage).

Definition HtlcSucceedInput_CraftInputScript (h : loc) (signer : Signer)
    (txn : loc) (hashCache : TxSigHashes) (txinIdx : Z) : M ScriptResult :=
  hv <- load (fun w => htlcInputs w !! h) ;;
  let desc := signDesc (htlc_inputKit hv) in
  let desc := setSigHashes desc hashCache in
  let desc := setInputIndex desc txinIdx in
  r <- callSenderHtlcSpendRedeem signer desc txn (preimage hv) ;;
  let '(witness, err) := r in
  match err with
  | Some e => ret (None, Some e)
  | None => ret (Some (mkScript witness []), None)
  end.

(** *** [BaseInput.CraftInputScript] as the specification words it

    "Looks up the witness-generation strategy for its WitnessType,
    refreshes its SignDescriptor's sighash-cache reference and input index
    to match the call, and invokes the strategy": the refresh made by the
    operation itself, ahead of the call. *)
Definition BaseInput_CraftInputScript_refreshing (bi : loc) (signer : Signer)
    (txn : loc) (hashCache : TxSigHashes) (txinIdx : Z) : M ScriptResult :=
  b <- load (fun w => baseInputs w !! bi) ;;
  desc <- inputKit_SignDesc (KitOfBase bi) ;;
  let witnessFunc :=
    WitnessGenerator (witnessType (base_inputKit b)) signer in
  d <- load (readSignDesc desc) ;;
  store (writeSignDesc desc (setInputIndex (setSigHashes d hashCache) txinIdx)) ;;;
  callWitnessFunc witnessFunc desc txn hashCache txinIdx.

(** *** Inputs as their callers hold them *)

(** The input a [Make...] constructor returns, kept in a variable of the
    caller, and the input a [New...] constructor returns a reference to:
    both as a reference to the kit. *)
Definition heldBase (make : M BaseInput) : M InputKitRef :=
  b <- make ;; l <- allocBase b ;; ret (KitOfBase l).

Definition heldHtlc (make : M HtlcSucceedInput) : M InputKitRef :=
  hv <- make ;; l <- allocHtlc hv ;; ret (KitOfHtlc l).

Definition newBase (new : M loc) : M InputKitRef :=
  l <- new ;; ret (KitOfBase l).

(** [HeightHint()] and [BlocksToMaturity()] return [h] and [m] on the
    input [i], and leave the store as it is. *)
Definition returnsHints (i : InputKitRef) (h m : Z) (w : World) : Prop :=
  inputKit_HeightHint i w = Some (h, w)
  /\ inputKit_BlocksToMaturity i w = Some (m, w).

(** Built in the store [w] and built in the store [w'], the input returns
    [h] and [m] both times. *)
Definition builtWithHints (build : M InputKitRef) (h m : Z)
    (w w' : World) : Prop :=
  exists i w1 i' w1',
    build w = Some (i, w1) /\ build w' = Some (i', w1')
    /\ returnsHints i h m w1 /\ returnsHints i' h m w1'.

(** *** Running the operations *)

(** The kit an input holds with another descriptor in it. *)
Definition kitWithSignDesc (k : inputKit) (d : SignDescriptor) : inputKit :=
  mkInputKit (outpoint k) (witnessType k) d (heightHint k)
    (blockToMaturity k).

(** The store once the transaction at [txn] and the base input at [bi]
    have been written. *)
Definition writtenBase (bi txn : loc) (b : BaseInput) (tx : MsgTx)
    (w : World) : World :=
  withBaseInputs (<[bi := b]> (baseInputs w))
    (withMsgTxs (<[txn := tx]> (msgTxs w)) w).

Lemma bind_load {A B : Type} (read : World -> option A) (f : A -> M B)
    (w : World) (a : A) :
  read w = Some a -> bind (load read) f w = f a w.
Proof. intros H. unfold bind, load. rewrite H. reflexivity. Qed.

Lemma bind_ret {A B : Type} (a : A) (f : A -> M B) (w : World) :
  bind (ret a) f w = f a w.
Proof. reflexivity. Qed.

Lemma bind_assoc {A B C : Type} (m : M A) (f : A -> M B) (g : B -> M C)
    (w : World) :
  bind (bind m f) g w = bind m (fun a => bind (f a) g) w.
Proof. unfold bind. destruct (m w) as [[a w'] |]; reflexivity. Qed.

Lemma readKit_base bi w b :
  baseInputs w !! bi = Some b ->
  readKit (KitOfBase bi) w = Some (base_inputKit b).
Proof. intros H. unfold readKit. rewrite H. reflexivity. Qed.

Lemma readKit_htlc h w hv :
  htlcInputs w !! h = Some hv ->
  readKit (KitOfHtlc h) w = Some (htlc_inputKit hv).
Proof. intros H. unfold readKit. rewrite H. reflexivity. Qed.

Lemma callWitnessFunc_base witnessFunc bi txn hashCache txinIdx w b tx :
  baseInputs w !! bi = Some b ->
  msgTxs w !! txn = Some tx ->
  callWitnessFunc witnessFunc (SignDescOf (KitOfBase bi)) txn hashCache
    txinIdx w
  = let out := witnessFunc tx hashCache txinIdx (signDesc (base_inputKit b)) in
    Some (out.1.1,
          writtenBase bi txn
            (mkBaseInput (kitWithSignDesc (base_inputKit b) out.2))
            out.1.2 w).
Proof.
  intros Hb Htx.
  unfold callWitnessFunc, bind, load, store, readTx, readSignDesc, readKit.
  rewrite Htx, Hb. cbn.
  destruct (witnessFunc tx hashCache txinIdx (signDesc (base_inputKit b)))
    as [[res tx'] d'].
  unfold writeTx. rewrite Htx. cbn.
  rewrite Hb. reflexivity.
Qed.

Lemma BaseInput_CraftInputScript_run bi signer txn hashCache txinIdx w b tx :
  baseInputs w !! bi = Some b ->
  msgTxs w !! txn = Some tx ->
  BaseInput_CraftInputScript bi signer txn hashCache txinIdx w
  = let k := base_inputKit b in
    let out :=
      WitnessGenerator (witnessType k) signer tx hashCache txinIdx
        (signDesc k) in
    Some (out.1.1,
          writtenBase bi txn (mkBaseInput (kitWithSignDesc k out.2))
            out.1.2 w).
Proof.
  intros Hb Htx.
  pose proof (readKit_base _ _ _ Hb) as Hk.
  unfold BaseInput_CraftInputScript, inputKit_SignDesc.
  rewrite (bind_load _ _ _ _ Hb).
  rewrite bind_assoc, (bind_load _ _ _ _ Hk). cbv beta. rewrite bind_ret.
  apply callWitnessFunc_base; assumption.
Qed.

Lemma BaseInput_CraftInputScript_refreshing_run bi signer txn hashCache
    txinIdx w b tx :
  baseInputs w !! bi = Some b ->
  msgTxs w !! txn = Some tx ->
  BaseInput_CraftInputScript_refreshing bi signer txn hashCache txinIdx w
  = let k := base_inputKit b in
    let out :=
      WitnessGenerator (witnessType k) signer tx hashCache txinIdx
        (setInputIndex (setSigHashes (signDesc k) hashCache) txinIdx) in
    Some (out.1.1,
          writtenBase bi txn (mkBaseInput (kitWithSignDesc k out.2))
            out.1.2 w).
Proof.
  intros Hb Htx.
  pose proof (readKit_base _ _ _ Hb) as Hk.
  unfold BaseInput_CraftInputScript_refreshing, inputKit_SignDesc.
  rewrite (bind_load _ _ _ _ Hb).
  rewrite bind_assoc, (bind_load _ _ _ _ Hk). cbv beta. rewrite bind_ret.
  assert (Hd : readSignDesc (SignDescOf (KitOfBase bi)) w
               = Some (signDesc (base_inputKit b)))
    by (unfold readSignDesc; rewrite Hk; reflexivity).
  rewrite (bind_load _ _ _ _ Hd).
  set (d := setInputIndex (setSigHashes (signDesc (base_inputKit b)) hashCache)
              txinIdx).
  set (w1 := withBaseInputs
               (<[bi := mkBaseInput (kitWithSignDesc (base_inputKit b) d)]>
                  (baseInputs w)) w).
  assert (Hstore : store (writeSignDesc (SignDescOf (KitOfBase bi)) d) w
                   = Some (tt, w1)).
  { unfold store, writeSignDesc. rewrite Hk. cbn. rewrite Hb. reflexivity. }
  unfold bind at 1. rewrite Hstore.
  assert (Hb1 : baseInputs w1 !! bi
                = Some (mkBaseInput (kitWithSignDesc (base_inputKit b) d)))
    by apply lookup_insert_eq.
  rewrite (callWitnessFunc_base _ _ _ _ _ _ _ _ Hb1 Htx).
  cbn. unfold writtenBase, w1. cbn. rewrite insert_insert_eq. reflexivity.
Qed.

Lemma HtlcSucceedInput_CraftInputScript_run h signer txn hashCache txinIdx
    w hv tx :
  htlcInputs w !! h = Some hv ->
  msgTxs w !! txn = Some tx ->
  HtlcSucceedInput_CraftInputScript h signer txn hashCache txinIdx w
  = let sd := signDesc (htlc_inputKit hv) in
    let desc :=
      mkSignDescriptor (KeyDesc sd) (WitnessScript sd) (Output sd)
        (HashType sd) hashCache txinIdx in
    let out := SenderHtlcSpendRedeem signer desc tx (preimage hv) in
    Some (match out.1.1.2 with
          | Some e => (None, Some e)
          | None => (Some (mkScript out.1.1.1 []), None)
          end,
          withMsgTxs (<[txn := out.2]> (msgTxs w)) w).
Proof.
  intros Hh Htx.
  unfold HtlcSucceedInput_CraftInputScript, callSenderHtlcSpendRedeem.
  unfold bind, load, store, readTx, writeTx. rewrite Hh. cbn.
  rewrite Htx. cbn.
  destruct (SenderHtlcSpendRedeem signer _ tx (preimage hv))
    as [[[witness err] d'] tx'].
  cbn. rewrite Htx. cbn. destruct err; reflexivity.
Qed.

(** *** Writes and the inputs they reach *)

Lemma readKit_writeKit i j k w w' :
  writeKit j k w = Some w' ->
  readKit i w' = if decide (i = j) then Some k else readKit i w.
Proof.
  intros Hw. destruct j as [l | l]; cbn in Hw.
  - destruct (baseInputs w !! l) as [b |] eqn:Hl; [| discriminate].
    cbn in Hw. injection Hw as <-.
    destruct i as [l' | l']; cbn.
    + rewrite lookup_insert.
      destruct (decide (l = l')) as [-> | Hne].
      * rewrite decide_True by reflexivity. reflexivity.
      * rewrite decide_False by congruence. reflexivity.
    + rewrite decide_False by discriminate. reflexivity.
  - destruct (htlcInputs w !! l) as [h |] eqn:Hl; [| discriminate].
    cbn in Hw. injection Hw as <-.
    destruct i as [l' | l']; cbn.
    + rewrite decide_False by discriminate. reflexivity.
    + rewrite lookup_insert.
      destruct (decide (l = l')) as [-> | Hne].
      * rewrite decide_True by reflexivity. reflexivity.
      * rewrite decide_False by congruence. reflexivity.
Qed.

Lemma writeKit_is_Some j k w :
  is_Some (readKit j w) -> is_Some (writeKit j k w).
Proof.
  destruct j as [l | l]; cbn; intros [k0 Hk];
    [destruct (baseInputs w !! l) | destruct (htlcInputs w !! l)];
    cbn in *; eauto; discriminate.
Qed.

(** A write through a reference to an outpoint reaches no input but the
    one the reference points into. *)
Lemma readKit_writeOutPoint i p o w w' :
  writeOutPoint p o w = Some w' ->
  p <> OutpointOf i ->
  readKit i w' = readKit i w.
Proof.
  intros Hw Hne. destruct p as [l | j]; cbn in Hw.
  - destruct (outPoints w !! l); [| discriminate].
    cbn in Hw. injection Hw as <-. destruct i; reflexivity.
  - destruct (readKit j w) as [k |]; [| discriminate]. cbn in Hw.
    rewrite (readKit_writeKit i _ _ _ _ Hw).
    rewrite decide_False by congruence. reflexivity.
Qed.

Lemma readKit_writeSignDesc i p d w w' :
  writeSignDesc p d w = Some w' ->
  p <> SignDescOf i ->
  readKit i w' = readKit i w.
Proof.
  intros Hw Hne. destruct p as [l | j]; cbn in Hw.
  - destruct (signDescs w !! l); [| discriminate].
    cbn in Hw. injection Hw as <-. destruct i; reflexivity.
  - destruct (readKit j w) as [k |]; [| discriminate]. cbn in Hw.
    rewrite (readKit_writeKit i _ _ _ _ Hw).
    rewrite decide_False by congruence. reflexivity.
Qed.

Lemma writeOutPoint_is_Some p o w :
  is_Some (readOutPoint p w) -> is_Some (writeOutPoint p o w).
Proof.
  destruct p as [l | j]; cbn; intros [o0 Ho].
  - rewrite Ho. cbn. eauto.
  - destruct (readKit j w) as [k |] eqn:Hk; [| discriminate]. cbn.
    apply writeKit_is_Some. rewrite Hk. eauto.
Qed.

Lemma writeSignDesc_is_Some p d w :
  is_Some (readSignDesc p w) -> is_Some (writeSignDesc p d w).
Proof.
  destruct p as [l | j]; cbn; intros [d0 Hd].
  - rewrite Hd. cbn. eauto.
  - destruct (readKit j w) as [k |] eqn:Hk; [| discriminate]. cbn.
    apply writeKit_is_Some. rewrite Hk. eauto.
Qed.

(** A write through a reference to an outpoint leaves every descriptor
    readable. *)
Lemma readSignDesc_writeOutPoint_is_Some q p o w w' :
  writeOutPoint p o w = Some w' ->
  is_Some (readSignDesc q w) -> is_Some (readSignDesc q w').
Proof.
  intros Hw [d Hd]. destruct p as [l | j]; cbn in Hw.
  - destruct (outPoints w !! l); [| discriminate].
    cbn in Hw. injection Hw as <-. destruct q as [l' | [l' | l']]; cbn in *;
      rewrite Hd; eauto.
  - destruct (readKit j w) as [k |] eqn:Hk; [| discriminate]. cbn in Hw.
    destruct q as [l' | i]; cbn in *.
    + destruct j as [l | l]; cbn in Hw;
        [destruct (baseInputs w !! l) | destruct (htlcInputs w !! l)];
        cbn in Hw; try discriminate; injection Hw as <-; cbn; rewrite Hd;
        eauto.
    + rewrite (readKit_writeKit i _ _ _ _ Hw).
      destruct (decide (i = j)); cbn; [eauto |].
      destruct (readKit i w); cbn in *; [eauto | discriminate].
Qed.

Lemma writeKit_frame j k w w' :
  writeKit j k w = Some w' ->
  outPoints w' = outPoints w /\ signDescs w' = signDescs w
  /\ msgTxs w' = msgTxs w.
Proof.
  destruct j as [l | l]; cbn;
    [destruct (baseInputs w !! l) | destruct (htlcInputs w !! l)];
    cbn; intros Hw; try discriminate; injection Hw as <-; auto.
Qed.

Lemma readOutPoint_writeOutPoint p o w :
  is_Some (readOutPoint p w) ->
  exists w', writeOutPoint p o w = Some w' /\ readOutPoint p w' = Some o.
Proof.
  intros Hp. destruct (writeOutPoint_is_Some p o w Hp) as [w' Hw].
  exists w'. split; [exact Hw |].
  destruct p as [l | j]; cbn in *.
  - destruct (outPoints w !! l); [| discriminate].
    cbn in Hw. injection Hw as <-. cbn. apply lookup_insert_eq.
  - destruct (readKit j w) as [k |]; [| discriminate]. cbn in Hw.
    rewrite (readKit_writeKit j _ _ _ _ Hw).
    rewrite decide_True by reflexivity. reflexivity.
Qed.

Lemma readSignDesc_writeSignDesc q d w :
  is_Some (readSignDesc q w) ->
  exists w', writeSignDesc q d w = Some w' /\ readSignDesc q w' = Some d.
Proof.
  intros Hq. destruct (writeSignDesc_is_Some q d w Hq) as [w' Hw].
  exists w'. split; [exact Hw |].
  destruct q as [l | j]; cbn in *.
  - destruct (signDescs w !! l); [| discriminate].
    cbn in Hw. injection Hw as <-. cbn. apply lookup_insert_eq.
  - destruct (readKit j w) as [k |]; [| discriminate]. cbn in Hw.
    rewrite (readKit_writeKit j _ _ _ _ Hw).
    rewrite decide_True by reflexivity. reflexivity.
Qed.

(** Assigning a descriptor changes no outpoint. *)
Lemma readOutPoint_writeSignDesc p q d w w' :
  writeSignDesc q d w = Some w' ->
  readOutPoint p w' = readOutPoint p w.
Proof.
  intros Hw. destruct q as [l | j]; cbn in Hw.
  - destruct (signDescs w !! l); [| discriminate].
    cbn in Hw. injection Hw as <-. destruct p as [l' | [l' | l']]; reflexivity.
  - destruct (readKit j w) as [k |] eqn:Hk; [| discriminate]. cbn in Hw.
    destruct p as [l' | i]; cbn.
    + destruct (writeKit_frame _ _ _ _ Hw) as (-> & _). reflexivity.
    + rewrite (readKit_writeKit i _ _ _ _ Hw).
      destruct (decide (i = j)) as [-> | Hne]; [| reflexivity].
      rewrite Hk. reflexivity.
Qed.

(** *** Fresh objects *)

Lemma allocBase_fresh b w :
  exists l w1,
    allocBase b w = Some (l, w1)
    /\ baseInputs w !! l = None
    /\ baseInputs w1 !! l = Some b
    /\ (forall i, i <> KitOfBase l -> readKit i w1 = readKit i w)
    /\ outPoints w1 = outPoints w /\ signDescs w1 = signDescs w
    /\ msgTxs w1 = msgTxs w.
Proof.
  exists (fresh (dom (baseInputs w))). eexists. split; [reflexivity |].
  assert (Hfresh : baseInputs w !! fresh (dom (baseInputs w)) = None)
    by (apply not_elem_of_dom, is_fresh).
  split; [exact Hfresh |]. cbn. split; [apply lookup_insert_eq |].
  split; [| auto].
  intros [l' | l'] Hne; cbn; [| reflexivity].
  rewrite lookup_insert_ne by congruence. reflexivity.
Qed.

Lemma allocHtlc_fresh h w :
  exists l w1,
    allocHtlc h w = Some (l, w1)
    /\ htlcInputs w !! l = None
    /\ htlcInputs w1 !! l = Some h
    /\ (forall i, i <> KitOfHtlc l -> readKit i w1 = readKit i w)
    /\ outPoints w1 = outPoints w /\ signDescs w1 = signDescs w
    /\ msgTxs w1 = msgTxs w.
Proof.
  exists (fresh (dom (htlcInputs w))). eexists. split; [reflexivity |].
  assert (Hfresh : htlcInputs w !! fresh (dom (htlcInputs w)) = None)
    by (apply not_elem_of_dom, is_fresh).
  split; [exact Hfresh |]. cbn. split; [apply lookup_insert_eq |].
  split; [| auto].
  intros [l' | l'] Hne; cbn; [reflexivity |].
  rewrite lookup_insert_ne by congruence. reflexivity.
Qed.

(** *** What a caller can do with the references it passed

    Having built an input from [outpoint] and [signDescriptor], the caller
    still holds both references and can assign through them, any number
    of times. *)
Inductive mutatesThrough (outpoint : OutPointRef) (signDescriptor : SignDescRef)
  : World -> World -> Prop :=
| mutates_nothing w :
    mutatesThrough outpoint signDescriptor w w
| mutates_outpoint w w1 w2 o :
    writeOutPoint outpoint o w = Some w1 ->
    mutatesThrough outpoint signDescriptor w1 w2 ->
    mutatesThrough outpoint signDescriptor w w2
| mutates_signDesc w w1 w2 d :
    writeSignDesc signDescriptor d w = Some w1 ->
    mutatesThrough outpoint signDescriptor w1 w2 ->
    mutatesThrough outpoint signDescriptor w w2.

(** Through [OutPoint()] and [SignDesc()], the input [i] shows the
    outpoint [op] and the descriptor [sd]. *)
Definition holdsCopies (i : InputKitRef) (op : OutPoint)
    (sd : SignDescriptor) (w : World) : Prop :=
  (p <- inputKit_OutPoint i ;; load (readOutPoint p)) w = Some (op, w)
  /\ (p <- inputKit_SignDesc i ;; load (readSignDesc p)) w = Some (sd, w).

(** [CraftInputScript] on the input [i] signs with the descriptor [sd]:
    a base input hands [sd] to the generator of its type, an HTLC input
    hands [sd], bound to the call, to [SenderHtlcSpendRedeem]. *)
Definition craftReads (i : InputKitRef) (sd : SignDescriptor) (w : World)
  : Prop :=
  forall signer txn hashCache txinIdx tx,
    msgTxs w !! txn = Some tx ->
    match i with
    | KitOfBase bi =>
        exists wt w',
          inputKit_WitnessType i w = Some (wt, w)
          /\ BaseInput_CraftInputScript bi signer txn hashCache txinIdx w
             = Some
                 ((WitnessGenerator wt signer tx hashCache txinIdx sd).1.1,
                  w')
    | KitOfHtlc h =>
        exists hv w',
          htlcInputs w !! h = Some hv
          /\ let out :=
               SenderHtlcSpendRedeem signer
                 (setInputIndex (setSigHashes sd hashCache) txinIdx) tx
                 (preimage hv) in
             HtlcSucceedInput_CraftInputScript h signer txn hashCache
               txinIdx w
             = Some (match out.1.1.2 with
                     | Some e => (None, Some e)
                     | None => (Some (mkScript out.1.1.1 []), None)
                     end, w')
    end.

(** Built from the references [outpoint] and [signDescriptor], behind
    which [op] and [sd] were found, the input shows and signs with [op]
    and [sd] whatever the caller assigns through the two references
    afterwards, and the caller can assign anything. *)
Definition ownsCopies (build : M InputKitRef) (outpoint : OutPointRef)
    (signDescriptor : SignDescRef) (op : OutPoint) (sd : SignDescriptor)
    (w : World) : Prop :=
  exists i w1,
    build w = Some (i, w1)
    /\ (forall w2,
          mutatesThrough outpoint signDescriptor w1 w2 ->
          holdsCopies i op sd w2 /\ craftReads i sd w2)
    /\ (forall o d,
          exists w2,
            mutatesThrough outpoint signDescriptor w1 w2
            /\ readOutPoint outpoint w2 = Some o
            /\ readSignDesc signDescriptor w2 = Some d).

(** An input that neither reference points into keeps its kit. *)
Lemma readKit_mutatesThrough outpoint signDescriptor i w1 w2 :
  mutatesThrough outpoint signDescriptor w1 w2 ->
  outpoint <> OutpointOf i ->
  signDescriptor <> SignDescOf i ->
  readKit i w2 = readKit i w1.
Proof.
  intros Hmut Hop Hsd.
  induction Hmut as [w | w w1 w2 o Hw _ IH | w w1 w2 d Hw _ IH].
  - reflexivity.
  - rewrite IH. eapply readKit_writeOutPoint; eassumption.
  - rewrite IH. eapply readKit_writeSignDesc; eassumption.
Qed.

(** The caller can leave any outpoint and any descriptor behind its two
    references. *)
Lemma mutatesThrough_any outpoint signDescriptor o d w1 :
  is_Some (readOutPoint outpoint w1) ->
  is_Some (readSignDesc signDescriptor w1) ->
  exists w2,
    mutatesThrough outpoint signDescriptor w1 w2
    /\ readOutPoint outpoint w2 = Some o
    /\ readSignDesc signDescriptor w2 = Some d.
Proof.
  intros Hop Hsd.
  destruct (readOutPoint_writeOutPoint outpoint o w1 Hop) as (wa & Hwa & Hra).
  pose proof (readSignDesc_writeOutPoint_is_Some signDescriptor _ _ _ _ Hwa Hsd)
    as Hsd'.
  destruct (readSignDesc_writeSignDesc signDescriptor d wa Hsd')
    as (wb & Hwb & Hrb).
  exists wb. split; [| split].
  - eapply mutates_outpoint; [exact Hwa |].
    eapply mutates_signDesc; [exact Hwb |]. apply mutates_nothing.
  - rewrite (readOutPoint_writeSignDesc _ _ _ _ _ Hwb). exact Hra.
  - exact Hrb.
Qed.

Lemma holdsCopies_readKit i k w :
  readKit i w = Some k -> holdsCopies i (outpoint k) (signDesc k) w.
Proof.
  intros Hk. unfold holdsCopies, inputKit_OutPoint, inputKit_SignDesc. split.
  - rewrite bind_assoc, (bind_load _ _ _ _ Hk). cbv beta. rewrite bind_ret.
    unfold load, readOutPoint. rewrite Hk. reflexivity.
  - rewrite bind_assoc, (bind_load _ _ _ _ Hk). cbv beta. rewrite bind_ret.
    unfold load, readSignDesc. rewrite Hk. reflexivity.
Qed.

Lemma craftReads_readKit i k w :
  readKit i w = Some k -> craftReads i (signDesc k) w.
Proof.
  intros Hk signer txn hashCache txinIdx tx Htx. destruct i as [bi | h].
  - cbn in Hk. destruct (baseInputs w !! bi) as [b |] eqn:Hb; [| discriminate].
    cbn in Hk. injection Hk as <-.
    exists (witnessType (base_inputKit b)). eexists. split.
    + unfold inputKit_WitnessType.
      rewrite (bind_load _ _ _ _ (readKit_base _ _ _ Hb)). reflexivity.
    + apply (BaseInput_CraftInputScript_run _ _ _ _ _ _ _ _ Hb Htx).
  - cbn in Hk. destruct (htlcInputs w !! h) as [hv |] eqn:Hh; [| discriminate].
    cbn in Hk. injection Hk as <-.
    exists hv. eexists. split; [reflexivity |].
    apply (HtlcSucceedInput_CraftInputScript_run _ _ _ _ _ _ _ _ Hh Htx).
Qed.

(** A kit in a fresh object is reached by no reference that could be
    read before. *)
Lemma fresh_kit_ownsCopies build rop rsd op sd i k w w1 :
  readOutPoint rop w = Some op ->
  readSignDesc rsd w = Some sd ->
  build w = Some (i, w1) ->
  readKit i w = None ->
  readKit i w1 = Some k ->
  (forall j, j <> i -> readKit j w1 = readKit j w) ->
  outPoints w1 = outPoints w ->
  signDescs w1 = signDescs w ->
  outpoint k = op ->
  signDesc k = sd ->
  ownsCopies build rop rsd op sd w.
Proof.
  intros Hop Hsd Hbuild Hnone Hk Hother Hops Hsds <- <-.
  assert (Hne1 : rop <> OutpointOf i)
    by (intros ->; cbn in Hop; rewrite Hnone in Hop; discriminate).
  assert (Hne2 : rsd <> SignDescOf i)
    by (intros ->; cbn in Hsd; rewrite Hnone in Hsd; discriminate).
  exists i, w1. split; [exact Hbuild |]. split.
  - intros w2 Hmut.
    pose proof (readKit_mutatesThrough _ _ i _ _ Hmut Hne1 Hne2) as Hk2.
    rewrite Hk in Hk2.
    split; [apply holdsCopies_readKit | apply craftReads_readKit]; exact Hk2.
  - intros o d. apply mutatesThrough_any.
    + destruct rop as [l | j]; cbn in *.
      * rewrite Hops, Hop. eauto.
      * rewrite Hother by congruence. rewrite Hop. eauto.
    + destruct rsd as [l | j]; cbn in *.
      * rewrite Hsds, Hsd. eauto.
      * rewrite Hother by congruence. rewrite Hsd. eauto.
Qed.

Lemma allocBase_ownsCopies build rop rsd op sd b l w w1 :
  readOutPoint rop w = Some op ->
  readSignDesc rsd w = Some sd ->
  build w = Some (KitOfBase l, w1) ->
  allocBase b w = Some (l, w1) ->
  outpoint (base_inputKit b) = op ->
  signDesc (base_inputKit b) = sd ->
  ownsCopies build rop rsd op sd w.
Proof.
  intros Hop Hsd Hbuild Halloc Hkop Hksd.
  destruct (allocBase_fresh b w)
    as (l' & w1' & Halloc' & Hnone & Hl & Hother & Hops & Hsds & _).
  rewrite Halloc in Halloc'. injection Halloc' as <- <-.
  eapply fresh_kit_ownsCopies; try eassumption.
  - cbn. rewrite Hnone. reflexivity.
  - apply readKit_base, Hl.
Qed.

Lemma allocHtlc_ownsCopies build rop rsd op sd hv l w w1 :
  readOutPoint rop w = Some op ->
  readSignDesc rsd w = Some sd ->
  build w = Some (KitOfHtlc l, w1) ->
  allocHtlc hv w = Some (l, w1) ->
  outpoint (htlc_inputKit hv) = op ->
  signDesc (htlc_inputKit hv) = sd ->
  ownsCopies build rop rsd op sd w.
Proof.
  intros Hop Hsd Hbuild Halloc Hkop Hksd.
  destruct (allocHtlc_fresh hv w)
    as (l' & w1' & Halloc' & Hnone & Hl & Hother & Hops & Hsds & _).
  rewrite Halloc in Halloc'. injection Halloc' as <- <-.
  eapply fresh_kit_ownsCopies; try eassumption.
  - cbn. rewrite Hnone. reflexivity.
  - apply readKit_htlc, Hl.
Qed.

End Model.

(** ** The operations of an input *)

Section Operations.

Context {Signer MsgTx TxSigHashes KeyDescriptor error WitnessType : Type}.
Context {collaborators :
           @Collaborators Signer MsgTx TxSigHashes KeyDescriptor error
             WitnessType}.

Implicit Types (w : @World MsgTx TxSigHashes KeyDescriptor WitnessType).
Implicit Types (signer : Signer) (hashCache : TxSigHashes) (tx : MsgTx).
Implicit Types (b : @BaseInput TxSigHashes KeyDescriptor WitnessType).
Implicit Types (hv : @HtlcSucceedInput TxSigHashes KeyDescriptor WitnessType).

(** ** C1 *)

(** C1 (as amended): for every [BaseInput] and every call
    [CraftInputScript(signer, txn, hashCache, txinIdx)], the operation
    looks up the generator of the input's witness type, handing it the
    signer and a reference to the input's own descriptor, and calls it
    with [(txn, hashCache, txinIdx)], returning its result unchanged.  It
    writes neither the sighash-cache reference nor the input index
    itself: the generator finds the descriptor as the input stored it,
    and what the generator leaves behind that reference (and behind
    [txn]) is what the store holds afterwards. *)
Theorem BaseInput_CraftInputScript_dispatch
    bi signer txn hashCache txinIdx w b tx :
  baseInputs w !! bi = Some b ->
  msgTxs w !! txn = Some tx ->
  let k := base_inputKit b in
  let out :=
    WitnessGenerator (witnessType k) signer tx hashCache txinIdx
      (signDesc k) in
  exists w',
    BaseInput_CraftInputScript bi signer txn hashCache txinIdx w
    = Some (out.1.1, w')
    /\ w' = writtenBase bi txn (mkBaseInput (kitWithSignDesc k out.2))
              out.1.2 w
    /\ readKit (KitOfBase bi) w' = Some (kitWithSignDesc k out.2)
    /\ readSignDesc (SignDescOf (KitOfBase bi)) w' = Some out.2
    /\ readTx txn w' = Some out.1.2.
Proof.
  intros Hb Htx k out. eexists. split; [| split; [reflexivity |]].
  - apply (BaseInput_CraftInputScript_run _ _ _ _ _ _ _ _ Hb Htx).
  - unfold readSignDesc, readTx, readKit, writtenBase. cbn.
    rewrite !lookup_insert_eq. repeat split.
Qed.

(** When the generators bind the descriptor themselves, as the
    specification has them, the operation and its wording in the
    specification cannot be told apart. *)
Lemma BaseInput_CraftInputScript_refreshing_pure
    (htlcAcceptedRemoteSuccess : WitnessType)
    (strategy : WitnessType -> Signer -> MsgTx ->
                @SignDescriptor TxSigHashes KeyDescriptor ->
                @ScriptResult error)
    (redeem : Signer -> @SignDescriptor TxSigHashes KeyDescriptor ->
              MsgTx -> list Byte.byte -> TxWitness * option error)
    bi signer txn hashCache txinIdx w b tx :
  baseInputs w !! bi = Some b ->
  msgTxs w !! txn = Some tx ->
  let pure := pureCollaborators htlcAcceptedRemoteSuccess strategy redeem in
  @BaseInput_CraftInputScript _ _ _ _ _ _ pure bi signer txn hashCache
    txinIdx w
  = @BaseInput_CraftInputScript_refreshing _ _ _ _ _ _ pure bi signer txn
      hashCache txinIdx w.
Proof.
  intros Hb Htx pure.
  rewrite (@BaseInput_CraftInputScript_run _ _ _ _ _ _ pure
             _ _ _ _ _ _ _ _ Hb Htx).
  rewrite (@BaseInput_CraftInputScript_refreshing_run _ _ _ _ _ _ pure
             _ _ _ _ _ _ _ _ Hb Htx).
  reflexivity.
Qed.

(** ** C2 *)

(** C2: for every [HtlcSucceedInput] and every call
    [CraftInputScript(signer, txn, hashCache, txinIdx)], the witness is
    built by [SenderHtlcSpendRedeem] alone, whatever the table of
    generators holds: it is called once, with the signer, a copy of the
    stored descriptor whose sighash-cache reference and input index are
    [hashCache] and [txinIdx] (the other fields as stored), the
    transaction, and the stored preimage as it is.  The result is its
    error with no script, or else a script of its witness; the input is
    left as it was.  No condition bears on the preimage. *)
Theorem HtlcSucceedInput_CraftInputScript_redeems
    h signer txn hashCache txinIdx w hv tx :
  htlcInputs w !! h = Some hv ->
  msgTxs w !! txn = Some tx ->
  let sd := signDesc (htlc_inputKit hv) in
  let desc := setInputIndex (setSigHashes sd hashCache) txinIdx in
  let out := SenderHtlcSpendRedeem signer desc tx (preimage hv) in
  (SigHashes desc = hashCache /\ InputIndex desc = txinIdx
   /\ KeyDesc desc = KeyDesc sd /\ WitnessScript desc = WitnessScript sd
   /\ Output desc = Output sd /\ HashType desc = HashType sd)
  /\ (exists w',
        HtlcSucceedInput_CraftInputScript h signer txn hashCache txinIdx w
        = Some (match out.1.1.2 with
                | Some e => (None, Some e)
                | None => (Some (mkScript out.1.1.1 []), None)
                end, w')
        /\ w' = withMsgTxs (<[txn := out.2]> (msgTxs w)) w
        /\ htlcInputs w' !! h = Some hv
        /\ readTx txn w' = Some out.2)
  /\ (forall other : @Collaborators Signer MsgTx TxSigHashes KeyDescriptor
                        error WitnessType,
        @SenderHtlcSpendRedeem _ _ _ _ _ _ other
        = @SenderHtlcSpendRedeem _ _ _ _ _ _ collaborators ->
        @HtlcSucceedInput_CraftInputScript _ _ _ _ _ _ other h signer txn
          hashCache txinIdx w
        = @HtlcSucceedInput_CraftInputScript _ _ _ _ _ _ collaborators h
            signer txn hashCache txinIdx w).
Proof.
  intros Hh Htx sd desc out. split; [| split].
  - repeat split.
  - eexists. split; [| split; [reflexivity |]].
    + apply (HtlcSucceedInput_CraftInputScript_run _ _ _ _ _ _ _ _ Hh Htx).
    + unfold readTx. cbn. rewrite lookup_insert_eq. split; [exact Hh | reflexivity].
  - intros other Hsame.
    rewrite (@HtlcSucceedInput_CraftInputScript_run _ _ _ _ _ _ collaborators
               _ _ _ _ _ _ _ _ Hh Htx).
    rewrite (@HtlcSucceedInput_CraftInputScript_run _ _ _ _ _ _ other
               _ _ _ _ _ _ _ _ Hh Htx).
    rewrite Hsame. reflexivity.
Qed.

(** ** C3 *)


(** *** Constructors *)

Lemma MakeBaseInput_run outpoint witnessType signDescriptor heightHint w op sd :
  readOutPoint outpoint w = Some op ->
  readSignDesc signDescriptor w = Some sd ->
  MakeBaseInput outpoint witnessType signDescriptor heightHint w
  = Some (mkBaseInput (mkInputKit op witnessType sd heightHint 0), w).
Proof.
  intros Hop Hsd. unfold MakeBaseInput.
  rewrite (bind_load _ _ _ _ Hop), (bind_load _ _ _ _ Hsd). reflexivity.
Qed.

Lemma MakeHtlcSucceedInput_run outpoint signDescriptor pre heightHint
    blocksToMaturity w op sd :
  readOutPoint outpoint w = Some op ->
  readSignDesc signDescriptor w = Some sd ->
  MakeHtlcSucceedInput outpoint signDescriptor pre heightHint
    blocksToMaturity w
  = Some (mkHtlcSucceedInput
            (mkInputKit op HtlcAcceptedRemoteSuccess sd heightHint
               blocksToMaturity) pre, w).
Proof.
  intros Hop Hsd. unfold MakeHtlcSucceedInput.
  rewrite (bind_load _ _ _ _ Hop), (bind_load _ _ _ _ Hsd). reflexivity.
Qed.

Lemma NewBaseInput_run outpoint witnessType signDescriptor heightHint w op sd :
  readOutPoint outpoint w = Some op ->
  readSignDesc signDescriptor w = Some sd ->
  NewBaseInput outpoint witnessType signDescriptor heightHint w
  = allocBase (mkBaseInput (mkInputKit op witnessType sd heightHint 0)) w.
Proof.
  intros Hop Hsd. unfold NewBaseInput, bind.
  rewrite (MakeBaseInput_run _ _ _ _ _ _ _ Hop Hsd). reflexivity.
Qed.

Lemma NewCsvInput_run outpoint witnessType signDescriptor heightHint
    blockToMaturity w op sd :
  readOutPoint outpoint w = Some op ->
  readSignDesc signDescriptor w = Some sd ->
  NewCsvInput outpoint witnessType signDescriptor heightHint blockToMaturity w
  = allocBase
      (mkBaseInput (mkInputKit op witnessType sd heightHint blockToMaturity))
      w.
Proof.
  intros Hop Hsd. unfold NewCsvInput.
  rewrite (bind_load _ _ _ _ Hop), (bind_load _ _ _ _ Hsd). reflexivity.
Qed.

(** Each constructor, as a builder of a kit in a fresh object. *)
Lemma heldBase_MakeBaseInput outpoint witnessType signDescriptor heightHint
    w op sd :
  readOutPoint outpoint w = Some op ->
  readSignDesc signDescriptor w = Some sd ->
  exists l w1,
    heldBase (MakeBaseInput outpoint witnessType signDescriptor heightHint) w
    = Some (KitOfBase l, w1)
    /\ allocBase (mkBaseInput (mkInputKit op witnessType sd heightHint 0)) w
       = Some (l, w1).
Proof.
  intros Hop Hsd.
  destruct (allocBase_fresh
              (mkBaseInput (mkInputKit op witnessType sd heightHint 0)) w)
    as (l & w1 & Halloc & _).
  exists l, w1. split; [| exact Halloc].
  unfold heldBase, bind.
  rewrite (MakeBaseInput_run _ _ _ _ _ _ _ Hop Hsd), Halloc. reflexivity.
Qed.

Lemma newBase_NewBaseInput outpoint witnessType signDescriptor heightHint
    w op sd :
  readOutPoint outpoint w = Some op ->
  readSignDesc signDescriptor w = Some sd ->
  exists l w1,
    newBase (NewBaseInput outpoint witnessType signDescriptor heightHint) w
    = Some (KitOfBase l, w1)
    /\ allocBase (mkBaseInput (mkInputKit op witnessType sd heightHint 0)) w
       = Some (l, w1).
Proof.
  intros Hop Hsd.
  destruct (allocBase_fresh
              (mkBaseInput (mkInputKit op witnessType sd heightHint 0)) w)
    as (l & w1 & Halloc & _).
  exists l, w1. split; [| exact Halloc].
  unfold newBase, bind.
  rewrite (NewBaseInput_run _ _ _ _ _ _ _ Hop Hsd), Halloc. reflexivity.
Qed.

Lemma newBase_NewCsvInput outpoint witnessType signDescriptor heightHint
    blockToMaturity w op sd :
  readOutPoint outpoint w = Some op ->
  readSignDesc signDescriptor w = Some sd ->
  exists l w1,
    newBase (NewCsvInput outpoint witnessType signDescriptor heightHint
               blockToMaturity) w
    = Some (KitOfBase l, w1)
    /\ allocBase
         (mkBaseInput
            (mkInputKit op witnessType sd heightHint blockToMaturity)) w
       = Some (l, w1).
Proof.
  intros Hop Hsd.
  destruct (allocBase_fresh
              (mkBaseInput
                 (mkInputKit op witnessType sd heightHint blockToMaturity)) w)
    as (l & w1 & Halloc & _).
  exists l, w1. split; [| exact Halloc].
  unfold newBase, bind.
  rewrite (NewCsvInput_run _ _ _ _ _ _ _ _ Hop Hsd), Halloc. reflexivity.
Qed.

Lemma heldHtlc_MakeHtlcSucceedInput outpoint signDescriptor pre heightHint
    blocksToMaturity w op sd :
  readOutPoint outpoint w = Some op ->
  readSignDesc signDescriptor w = Some sd ->
  exists l w1,
    heldHtlc (MakeHtlcSucceedInput outpoint signDescriptor pre heightHint
                blocksToMaturity) w
    = Some (KitOfHtlc l, w1)
    /\ allocHtlc
         (mkHtlcSucceedInput
            (mkInputKit op HtlcAcceptedRemoteSuccess sd heightHint
               blocksToMaturity) pre) w
       = Some (l, w1).
Proof.
  intros Hop Hsd.
  destruct (allocHtlc_fresh
              (mkHtlcSucceedInput
                 (mkInputKit op HtlcAcceptedRemoteSuccess sd heightHint
                    blocksToMaturity) pre) w)
    as (l & w1 & Halloc & _).
  exists l, w1. split; [| exact Halloc].
  unfold heldHtlc, bind.
  rewrite (MakeHtlcSucceedInput_run _ _ _ _ _ _ _ _ Hop Hsd), Halloc.
  reflexivity.
Qed.

(** The kit found in the fresh object. *)
Lemma allocBase_readKit b w l w1 :
  allocBase b w = Some (l, w1) ->
  readKit (KitOfBase l) w1 = Some (base_inputKit b).
Proof.
  intros Halloc.
  destruct (allocBase_fresh b w) as (l' & w1' & Halloc' & _ & Hl & _).
  rewrite Halloc in Halloc'. injection Halloc' as <- <-.
  apply readKit_base, Hl.
Qed.

Lemma allocHtlc_readKit hv w l w1 :
  allocHtlc hv w = Some (l, w1) ->
  readKit (KitOfHtlc l) w1 = Some (htlc_inputKit hv).
Proof.
  intros Halloc.
  destruct (allocHtlc_fresh hv w) as (l' & w1' & Halloc' & _ & Hl & _).
  rewrite Halloc in Halloc'. injection Halloc' as <- <-.
  apply readKit_htlc, Hl.
Qed.

Lemma returnsHints_readKit i k w :
  readKit i w = Some k ->
  returnsHints i (heightHint k) (blockToMaturity k) w.
Proof.
  intros Hk. unfold returnsHints, inputKit_HeightHint,
    inputKit_BlocksToMaturity.
  rewrite !(bind_load _ _ _ _ Hk). split; reflexivity.
Qed.

Lemma builtWithHints_kits build i i' k k' w w1 w' w1' h m :
  build w = Some (i, w1) ->
  build w' = Some (i', w1') ->
  readKit i w1 = Some k ->
  readKit i' w1' = Some k' ->
  heightHint k = h -> blockToMaturity k = m ->
  heightHint k' = h -> blockToMaturity k' = m ->
  builtWithHints build h m w w'.
Proof.
  intros Hb Hb' Hk Hk' <- <- Hh Hm. exists i, w1, i', w1'.
  split; [exact Hb | split; [exact Hb' |]]. split.
  - apply returnsHints_readKit, Hk.
  - rewrite <- Hh, <- Hm. apply returnsHints_readKit, Hk'.
Qed.

(** Two runs [H] and [H'] of one builder, each ending in an allocation
    whose kit [readsKit] recovers. *)
Ltac built_twice H H' readsKit :=
  let l := fresh "l" in let w1 := fresh "w1" in
  let l' := fresh "l'" in let w1' := fresh "w1'" in
  let Hb := fresh "Hb" in let Ha := fresh "Ha" in
  let Hb' := fresh "Hb'" in let Ha' := fresh "Ha'" in
  destruct H as (l & w1 & Hb & Ha);
  destruct H' as (l' & w1' & Hb' & Ha');
  apply (builtWithHints_kits _ _ _ _ _ _ _ _ _ _ _ Hb Hb'
           (readsKit _ _ _ _ Ha) (readsKit _ _ _ _ Ha'));
  reflexivity.

(** ** C4 *)

(** C4: whatever outpoint, descriptor, preimage, height hint and number
    of blocks to maturity it is given, [MakeHtlcSucceedInput] returns an
    input whose [WitnessType()] is [HtlcAcceptedRemoteSuccess]: the
    constructor takes no witness type. *)
Theorem MakeHtlcSucceedInput_WitnessType outpoint signDescriptor pre
    heightHint blocksToMaturity w op sd :
  readOutPoint outpoint w = Some op ->
  readSignDesc signDescriptor w = Some sd ->
  exists hv l w1,
    MakeHtlcSucceedInput outpoint signDescriptor pre heightHint
      blocksToMaturity w = Some (hv, w)
    /\ allocHtlc hv w = Some (l, w1)
    /\ inputKit_WitnessType (KitOfHtlc l) w1
       = Some (HtlcAcceptedRemoteSuccess, w1).
Proof.
  intros Hop Hsd.
  destruct (heldHtlc_MakeHtlcSucceedInput outpoint signDescriptor pre
              heightHint blocksToMaturity w op sd Hop Hsd)
    as (l & w1 & _ & Halloc).
  eexists. exists l, w1. split; [| split; [exact Halloc |]].
  - apply MakeHtlcSucceedInput_run; assumption.
  - unfold inputKit_WitnessType.
    rewrite (bind_load _ _ _ _ (allocHtlc_readKit _ _ _ _ Halloc)).
    reflexivity.
Qed.

(** ** C6 *)

(** C6: [HeightHint()] and [BlocksToMaturity()] read what the constructor
    was given and leave the store alone.  Whatever the two stores an input
    is built in with the same arguments, both inputs return the same: the
    height hint [h] from every constructor, no blocks to maturity from
    [MakeBaseInput] and [NewBaseInput], and the [m] it was given from
    [NewCsvInput] and [MakeHtlcSucceedInput]. *)
Theorem accessors_return_what_was_constructed
    outpoint signDescriptor witnessType pre h m w w' op sd op' sd' :
  readOutPoint outpoint w = Some op ->
  readSignDesc signDescriptor w = Some sd ->
  readOutPoint outpoint w' = Some op' ->
  readSignDesc signDescriptor w' = Some sd' ->
  builtWithHints
    (heldBase (MakeBaseInput outpoint witnessType signDescriptor h)) h 0 w w'
  /\ builtWithHints
       (newBase (NewBaseInput outpoint witnessType signDescriptor h)) h 0 w w'
  /\ builtWithHints
       (newBase (NewCsvInput outpoint witnessType signDescriptor h m)) h m w w'
  /\ builtWithHints
       (heldHtlc (MakeHtlcSucceedInput outpoint signDescriptor pre h m))
       h m w w'.
Proof.
  intros Hop Hsd Hop' Hsd'. repeat split.
  - built_twice
      (heldBase_MakeBaseInput outpoint witnessType signDescriptor h
         w op sd Hop Hsd)
      (heldBase_MakeBaseInput outpoint witnessType signDescriptor h
         w' op' sd' Hop' Hsd')
      allocBase_readKit.
  - built_twice
      (newBase_NewBaseInput outpoint witnessType signDescriptor h
         w op sd Hop Hsd)
      (newBase_NewBaseInput outpoint witnessType signDescriptor h
         w' op' sd' Hop' Hsd')
      allocBase_readKit.
  - built_twice
      (newBase_NewCsvInput outpoint witnessType signDescriptor h m
         w op sd Hop Hsd)
      (newBase_NewCsvInput outpoint witnessType signDescriptor h m
         w' op' sd' Hop' Hsd')
      allocBase_readKit.
  - built_twice
      (heldHtlc_MakeHtlcSucceedInput outpoint signDescriptor pre h m
         w op sd Hop Hsd)
      (heldHtlc_MakeHtlcSucceedInput outpoint signDescriptor pre h m
         w' op' sd' Hop' Hsd')
      allocHtlc_readKit.
Qed.

(** ** C5 *)

(** C5: [MakeBaseInput], [NewBaseInput], [NewCsvInput] and
    [MakeHtlcSucceedInput] each store the outpoint and the descriptor
    found behind the references they are given, by value.  Whatever the
    caller assigns through those two references afterwards (and it can
    assign anything), [OutPoint()] and [SignDesc()] of the input still
    show the outpoint and the descriptor of construction time, and
    [CraftInputScript] still signs with that descriptor. *)
Theorem constructors_store_copies
    outpoint signDescriptor witnessType pre h m w op sd :
  readOutPoint outpoint w = Some op ->
  readSignDesc signDescriptor w = Some sd ->
  ownsCopies (heldBase (MakeBaseInput outpoint witnessType signDescriptor h))
    outpoint signDescriptor op sd w
  /\ ownsCopies (newBase (NewBaseInput outpoint witnessType signDescriptor h))
       outpoint signDescriptor op sd w
  /\ ownsCopies
       (newBase (NewCsvInput outpoint witnessType signDescriptor h m))
       outpoint signDescriptor op sd w
  /\ ownsCopies
       (heldHtlc (MakeHtlcSucceedInput outpoint signDescriptor pre h m))
       outpoint signDescriptor op sd w.
Proof.
  intros Hop Hsd. repeat split.
  - destruct (heldBase_MakeBaseInput outpoint witnessType signDescriptor h
                w op sd Hop Hsd) as (l & w1 & Hbuild & Halloc).
    eapply allocBase_ownsCopies; eauto.
  - destruct (newBase_NewBaseInput outpoint witnessType signDescriptor h
                w op sd Hop Hsd) as (l & w1 & Hbuild & Halloc).
    eapply allocBase_ownsCopies; eauto.
  - destruct (newBase_NewCsvInput outpoint witnessType signDescriptor h m
                w op sd Hop Hsd) as (l & w1 & Hbuild & Halloc).
    eapply allocBase_ownsCopies; eauto.
  - destruct (heldHtlc_MakeHtlcSucceedInput outpoint signDescriptor pre h m
                w op sd Hop Hsd) as (l & w1 & Hbuild & Halloc).
    eapply allocHtlc_ownsCopies; eauto.
Qed.

(** ** C7 *)

(** C7: with generators and a redemption that are functions of what they
    are handed (the signer's work included), [CraftInputScript] called
    twice in a row with the same signer, transaction, sighash cache and
    input index returns the same script and error both times, for a
    [BaseInput] and for an [HtlcSucceedInput]; after the first call the
    store no longer changes. *)
Theorem CraftInputScript_idempotent
    (htlcAcceptedRemoteSuccess : WitnessType)
    (strategy : WitnessType -> Signer -> MsgTx ->
                @SignDescriptor TxSigHashes KeyDescriptor ->
                @ScriptResult error)
    (redeem : Signer -> @SignDescriptor TxSigHashes KeyDescriptor ->
              MsgTx -> list Byte.byte -> TxWitness * option error)
    signer txn hashCache txinIdx w tx :
  msgTxs w !! txn = Some tx ->
  let pure := pureCollaborators htlcAcceptedRemoteSuccess strategy redeem in
  (forall bi b,
     baseInputs w !! bi = Some b ->
     exists result w1,
       @BaseInput_CraftInputScript _ _ _ _ _ _ pure bi signer txn hashCache
         txinIdx w = Some (result, w1)
       /\ @BaseInput_CraftInputScript _ _ _ _ _ _ pure bi signer txn
            hashCache txinIdx w1 = Some (result, w1))
  /\ (forall h hv,
        htlcInputs w !! h = Some hv ->
        exists result w1,
          @HtlcSucceedInput_CraftInputScript _ _ _ _ _ _ pure h signer txn
            hashCache txinIdx w = Some (result, w1)
          /\ @HtlcSucceedInput_CraftInputScript _ _ _ _ _ _ pure h signer
               txn hashCache txinIdx w1 = Some (result, w1)).
Proof.
  intros Htx pure. split.
  - intros bi b Hb. eexists. eexists. split.
    + apply (@BaseInput_CraftInputScript_run _ _ _ _ _ _ pure
               _ _ _ _ _ _ _ _ Hb Htx).
    + cbn.
      erewrite (@BaseInput_CraftInputScript_run _ _ _ _ _ _ pure);
        [| apply lookup_insert_eq | apply lookup_insert_eq ].
      cbn. unfold writtenBase. cbn. rewrite !insert_insert_eq. reflexivity.
  - intros h hv Hh.
    assert (Hsame : withMsgTxs (<[txn := tx]> (msgTxs w)) w = w)
      by (rewrite (insert_id _ _ _ Htx); destruct w; reflexivity).
    eexists. exists w.
    rewrite (@HtlcSucceedInput_CraftInputScript_run _ _ _ _ _ _ pure
               _ _ _ _ _ _ _ _ Hh Htx).
    cbn. rewrite Hsame. split; reflexivity.
Qed.

End Operations.

(** ** A sweep of three outputs

    A store with one outpoint, one descriptor and one transaction of a
    caller, a base input and an HTLC input, and stub collaborators. *)

Module Scenario.

(** The tags of the outputs swept here. *)
Inductive SpendCategory : Type :=
| PlainKey
| CsvDelayed
| HtlcAcceptedSuccess.

(** A stub signer is the signature it hands out; the transaction is the
    list of the outpoints it spends; a sighash cache is known by a number,
    a key by its bytes, an error by its message. *)
Definition StubSigner : Type := list Byte.byte.
Definition SweepTx : Type := list OutPoint.
Definition Store : Type :=
  @World SweepTx nat (list Byte.byte) SpendCategory.
Definition Descriptor : Type := @SignDescriptor nat (list Byte.byte).
Definition Stubs : Type :=
  @Collaborators StubSigner SweepTx nat (list Byte.byte) string SpendCategory.

Local Notation "x <- m ;; k" := (bind m (fun x => k))
  (at level 100, m at next level, right associativity).

Definition stubSigner : StubSigner := repeat Byte.xab 64.

Definition pubkey : list Byte.byte := Byte.x02 :: repeat Byte.x11 32.
Definition redeemScript : list Byte.byte := [Byte.x63; Byte.x67; Byte.x68].
Definition paymentPreimage : list Byte.byte := [Byte.x12; Byte.x34].

Definition op0 : OutPoint := mkOutPoint (repeat Byte.x00 31 ++ [Byte.x01]) 0.
Definition op1 : OutPoint := mkOutPoint (repeat Byte.xff 32) 3.

(** A descriptor last used for input 7 of a transaction whose sighash
    cache was number 1. *)
Definition sd0 : Descriptor := mkSignDescriptor pubkey redeemScript 50000 1 1%nat 7.
Definition sd1 : Descriptor := mkSignDescriptor [] [] 0 0 0%nat 0.

Definition sweepTx : SweepTx := [op0].

Definition base0 : @BaseInput nat (list Byte.byte) SpendCategory :=
  mkBaseInput (mkInputKit op0 PlainKey sd0 100 0).

Definition htlc0 : @HtlcSucceedInput nat (list Byte.byte) SpendCategory :=
  mkHtlcSucceedInput (mkInputKit op0 HtlcAcceptedSuccess sd0 100 0)
    paymentPreimage.

Definition w0 : Store :=
  mkWorld {[1%positive := op0]} {[1%positive := sd0]}
    {[1%positive := sweepTx]} {[1%positive := base0]}
    {[1%positive := htlc0]}.

(** The signature of the stub over input [InputIndex desc]: the input
    index is part of what is signed. *)
Definition signatureOver (signer : StubSigner) (desc : Descriptor)
  : list Byte.byte :=
  signer ++ [default Byte.x00 (Byte.of_N (Z.to_N (InputIndex desc)))].

Definition stubStrategy (wt : SpendCategory) (signer : StubSigner)
    (tx : SweepTx) (desc : Descriptor) : @ScriptResult string :=
  match wt with
  | PlainKey =>
      (Some (mkScript [signatureOver signer desc; KeyDesc desc] []), None)
  | CsvDelayed | HtlcAcceptedSuccess =>
      (Some (mkScript [signatureOver signer desc; WitnessScript desc] []),
       None)
  end.

Definition stubRedeem (signer : StubSigner) (desc : Descriptor)
    (tx : SweepTx) (preimage : list Byte.byte)
  : TxWitness * option string :=
  ([signatureOver signer desc; preimage; WitnessScript desc], None).

(** Stubs as the specification has the collaborators. *)
Definition stubs : Stubs :=
  pureCollaborators HtlcAcceptedSuccess stubStrategy stubRedeem.

(** Stubs whose generators sign with the descriptor as they find it. *)
Definition trustingStubs : Stubs :=
  {| HtlcAcceptedRemoteSuccess := HtlcAcceptedSuccess;
     WitnessGenerator := fun wt signer tx hc inputIndex d =>
       (stubStrategy wt signer tx d, tx, d);
     SenderHtlcSpendRedeem := fun signer desc tx preimage =>
       (stubRedeem signer desc tx preimage, desc, tx) |}.


(** [sd0] bound to input 0 of the transaction whose sighash cache is
    number 5. *)
Definition sd0Bound : Descriptor :=
  mkSignDescriptor pubkey redeemScript 50000 1 5%nat 0.

Definition craftBase (c : Stubs) : M ScriptResult :=
  @BaseInput_CraftInputScript _ _ _ _ _ _ c 1%positive stubSigner 1%positive
    5%nat 0.

Definition craftBaseRefreshing (c : Stubs) : M ScriptResult :=
  @BaseInput_CraftInputScript_refreshing _ _ _ _ _ _ c 1%positive stubSigner
    1%positive 5%nat 0.

Definition craftHtlc (c : Stubs) : M ScriptResult :=
  @HtlcSucceedInput_CraftInputScript _ _ _ _ _ _ c 1%positive stubSigner
    1%positive 5%nat 0.

(** The store [w0] once the descriptor of the base input is bound. *)
Definition w0Bound : Store :=
  mkWorld {[1%positive := op0]} {[1%positive := sd0]}
    {[1%positive := sweepTx]}
    {[1%positive := mkBaseInput (mkInputKit op0 PlainKey sd0Bound 100 0)]}
    {[1%positive := htlc0]}.

(** A plain-key output: the witness is the signature and the key. *)
Example plain_key_script :
  craftBase stubs w0
  = Some ((Some (mkScript [signatureOver stubSigner sd0Bound; pubkey] []),
           None), w0Bound).
Proof. vm_compute. reflexivity. Qed.

(** A CSV-locked output: 144 blocks to maturity, and the redeem script
    in the witness. *)
Example csv_input :
  (l <- NewCsvInput (OutPointAt 1%positive) CsvDelayed (SignDescAt 1%positive) 100 144 ;;
   m <- inputKit_BlocksToMaturity (KitOfBase l) ;;
   r <- @BaseInput_CraftInputScript _ _ _ _ _ _ stubs l stubSigner 1%positive
          5%nat 0 ;;
   ret (m, r)) w0
  ≫= (fun x => Some x.1)
  = Some (144,
          (Some (mkScript [signatureOver stubSigner sd0Bound; redeemScript]
                   []), None)).
Proof. vm_compute. reflexivity. Qed.

(** An HTLC output redeemed with the preimage [0x1234]: the preimage is
    in the witness, next to the signature. *)
Example htlc_script :
  craftHtlc stubs w0
  = Some ((Some (mkScript [signatureOver stubSigner sd0Bound;
                           paymentPreimage; redeemScript] []), None), w0).
Proof. vm_compute. reflexivity. Qed.

(** C1 as the specification words it fails: with generators that sign with the
    descriptor they find, [CraftInputScript] on a base input whose
    descriptor was last bound to input 7 returns a signature over input
    7, not over the input 0 of the call, and leaves the descriptor as it
    was; an operation that bound the descriptor before the call would
    return a signature over input 0. *)
Lemma BaseInput_CraftInputScript_refresh_counterexample :
  craftBase trustingStubs w0
  = Some ((Some (mkScript [signatureOver stubSigner sd0; pubkey] []), None),
          w0)
  /\ craftBaseRefreshing trustingStubs w0
     = Some ((Some (mkScript [signatureOver stubSigner sd0Bound; pubkey] []),
              None), w0Bound)
  /\ InputIndex sd0 = 7
  /\ craftBase trustingStubs w0 <> craftBaseRefreshing trustingStubs w0.
Proof.
  split; [vm_compute; reflexivity |].
  split; [vm_compute; reflexivity |].
  split; [reflexivity |].
  vm_compute. intros H. discriminate H.
Qed.

Lemma BaseInput_CraftInputScript_dispatch_witness :
  exists w',
    craftBase stubs w0
    = Some (stubStrategy PlainKey stubSigner sweepTx sd0Bound, w')
    /\ readSignDesc (SignDescOf (KitOfBase 1%positive)) w' = Some sd0Bound.
Proof.
  destruct (@BaseInput_CraftInputScript_dispatch _ _ _ _ _ _ stubs
              1%positive stubSigner 1%positive 5%nat 0 w0 base0 sweepTx
              eq_refl eq_refl) as (w' & Hrun & _ & _ & Hdesc & _).
  exists w'. split; [exact Hrun | exact Hdesc].
Defined.

Lemma HtlcSucceedInput_CraftInputScript_redeems_witness :
  exists w',
    craftHtlc stubs w0
    = Some ((Some (mkScript [signatureOver stubSigner sd0Bound;
                             paymentPreimage; redeemScript] []), None), w')
    /\ htlcInputs w' !! 1%positive = Some htlc0.
Proof.
  destruct (@HtlcSucceedInput_CraftInputScript_redeems _ _ _ _ _ _ stubs
              1%positive stubSigner 1%positive 5%nat 0 w0 htlc0 sweepTx
              eq_refl eq_refl) as (_ & (w' & Hrun & _ & Hinput & _) & _).
  exists w'. split; [exact Hrun | exact Hinput].
Defined.




Lemma MakeHtlcSucceedInput_WitnessType_witness :
  exists hv l w1,
    @MakeHtlcSucceedInput _ _ _ _ _ _ stubs (OutPointAt 1%positive) (SignDescAt 1%positive)
      paymentPreimage 100 0 w0 = Some (hv, w0)
    /\ allocHtlc hv w0 = Some (l, w1)
    /\ inputKit_WitnessType (KitOfHtlc l) w1
       = Some (HtlcAcceptedSuccess, w1).
Proof.
  exact (@MakeHtlcSucceedInput_WitnessType _ _ _ _ _ _ stubs (OutPointAt 1%positive)
           (SignDescAt 1%positive) paymentPreimage 100 0 w0 op0 sd0 eq_refl eq_refl).
Defined.

(** Inputs built from the references an input already in the store gives
    out, [OutPoint()] and [SignDesc()] of the base input at 1. *)
Lemma constructors_store_copies_witness :
  let outpoint := OutpointOf (KitOfBase 1%positive) in
  let signDescriptor := SignDescOf (KitOfBase 1%positive) in
  @ownsCopies _ _ _ _ _ _ stubs
    (heldBase (MakeBaseInput outpoint PlainKey signDescriptor 100))
    outpoint signDescriptor op0 sd0 w0
  /\ @ownsCopies _ _ _ _ _ _ stubs
       (newBase (NewBaseInput outpoint PlainKey signDescriptor 100))
       outpoint signDescriptor op0 sd0 w0
  /\ @ownsCopies _ _ _ _ _ _ stubs
       (newBase (NewCsvInput outpoint PlainKey signDescriptor 100 144))
       outpoint signDescriptor op0 sd0 w0
  /\ @ownsCopies _ _ _ _ _ _ stubs
       (heldHtlc
          (@MakeHtlcSucceedInput _ _ _ _ _ _ stubs outpoint signDescriptor
             paymentPreimage 100 144))
       outpoint signDescriptor op0 sd0 w0.
Proof.
  exact (@constructors_store_copies _ _ _ _ _ _ stubs
           (OutpointOf (KitOfBase 1%positive)) (SignDescOf (KitOfBase 1%positive)) PlainKey
           paymentPreimage 100 144 w0 op0 sd0 eq_refl eq_refl).
Defined.

Lemma accessors_return_what_was_constructed_witness :
  builtWithHints
    (heldBase (MakeBaseInput (OutPointAt 1%positive) PlainKey (SignDescAt 1%positive) 100))
    100 0 w0 w0Bound
  /\ builtWithHints
       (newBase (NewBaseInput (OutPointAt 1%positive) PlainKey (SignDescAt 1%positive) 100))
       100 0 w0 w0Bound
  /\ builtWithHints
       (newBase (NewCsvInput (OutPointAt 1%positive) PlainKey (SignDescAt 1%positive) 100 144))
       100 144 w0 w0Bound
  /\ builtWithHints
       (heldHtlc
          (@MakeHtlcSucceedInput _ _ _ _ _ _ stubs (OutPointAt 1%positive)
             (SignDescAt 1%positive) paymentPreimage 100 144))
       100 144 w0 w0Bound.
Proof.
  exact (@accessors_return_what_was_constructed _ _ _ _ _ _ stubs
           (OutPointAt 1%positive) (SignDescAt 1%positive) PlainKey paymentPreimage 100 144
           w0 w0Bound op0 sd0 op0 sd0 eq_refl eq_refl eq_refl eq_refl).
Defined.

Lemma CraftInputScript_idempotent_witness :
  (exists result w1,
     craftBase stubs w0 = Some (result, w1)
     /\ craftBase stubs w1 = Some (result, w1))
  /\ (exists result w1,
        craftHtlc stubs w0 = Some (result, w1)
        /\ craftHtlc stubs w1 = Some (result, w1)).
Proof.
  destruct (CraftInputScript_idempotent HtlcAcceptedSuccess stubStrategy
              stubRedeem stubSigner 1%positive 5%nat 0 w0 sweepTx eq_refl)
    as [Hbase Hhtlc].
  split.
  - exact (Hbase 1%positive base0 eq_refl).
  - exact (Hhtlc 1%positive htlc0 eq_refl).
Defined.

End Scenario.

(** ** Inputs: construction, references given out, and what a craft
    call reaches *)

Section Sweeping.

Context {Signer MsgTx TxSigHashes KeyDescriptor error WitnessType : Type}.
Context {collaborators :
           @Collaborators Signer MsgTx TxSigHashes KeyDescriptor error
             WitnessType}.

Implicit Types (w : @World MsgTx TxSigHashes KeyDescriptor WitnessType).
Implicit Types (signer : Signer) (hashCache : TxSigHashes) (tx : MsgTx).
Implicit Types (b : @BaseInput TxSigHashes KeyDescriptor WitnessType).
Implicit Types (hv : @HtlcSucceedInput TxSigHashes KeyDescriptor WitnessType).
Implicit Types (k : @inputKit TxSigHashes KeyDescriptor WitnessType).
Implicit Types (d sd : @SignDescriptor TxSigHashes KeyDescriptor).

Local Notation "x <- m ;; k" := (bind m (fun x => k))
  (at level 100, m at next level, right associativity).

(** X11: [NewBaseInput] is [NewCsvInput] with no blocks to maturity: in
    every store the two return the same reference and leave the same
    store, or both panic. *)
Theorem NewBaseInput_is_NewCsvInput_without_delay
    outpoint (witnessType : WitnessType) signDescriptor heightHint w :
  NewBaseInput outpoint witnessType signDescriptor heightHint w
  = NewCsvInput outpoint witnessType signDescriptor heightHint 0 w.
Proof.
  unfold NewBaseInput, MakeBaseInput, NewCsvInput, bind, load, ret.
  destruct (readOutPoint outpoint w); [| reflexivity].
  destruct (readSignDesc signDescriptor w); reflexivity.
Qed.

(** X12: a constructor panics exactly when one of its two references is
    [nil]; otherwise [MakeBaseInput] and [MakeHtlcSucceedInput] leave the
    store as it is, and [NewBaseInput] and [NewCsvInput] add one object at
    a location that held none and leave every other object as it is. *)
Theorem constructors_panic_or_allocate
    outpoint (witnessType : WitnessType) signDescriptor pre h m w :
  let unreadable :=
    readOutPoint outpoint w = None \/ readSignDesc signDescriptor w = None in
  let added l w1 :=
    baseInputs w !! l = None
    /\ is_Some (baseInputs w1 !! l)
    /\ (forall l', l' <> l -> baseInputs w1 !! l' = baseInputs w !! l')
    /\ outPoints w1 = outPoints w /\ signDescs w1 = signDescs w
    /\ msgTxs w1 = msgTxs w /\ htlcInputs w1 = htlcInputs w in
  ((MakeBaseInput outpoint witnessType signDescriptor h w = None
    <-> unreadable)
   /\ forall b w1,
        MakeBaseInput outpoint witnessType signDescriptor h w = Some (b, w1)
        -> w1 = w)
  /\ ((@MakeHtlcSucceedInput _ _ _ _ _ _ collaborators outpoint
         signDescriptor pre h m w = None <-> unreadable)
      /\ forall hv w1,
           @MakeHtlcSucceedInput _ _ _ _ _ _ collaborators outpoint
             signDescriptor pre h m w = Some (hv, w1) ->
           w1 = w)
  /\ ((NewBaseInput outpoint witnessType signDescriptor h w = None
       <-> unreadable)
      /\ forall l w1,
           NewBaseInput outpoint witnessType signDescriptor h w
           = Some (l, w1) ->
           added l w1)
  /\ ((NewCsvInput outpoint witnessType signDescriptor h m w = None
       <-> unreadable)
      /\ forall l w1,
           NewCsvInput outpoint witnessType signDescriptor h m w
           = Some (l, w1) ->
           added l w1).
Proof.
  intros unreadable added. subst unreadable added. cbv beta.
  assert (Halloc : forall b l w1,
            allocBase b w = Some (l, w1) ->
            baseInputs w !! l = None
            /\ is_Some (baseInputs w1 !! l)
            /\ (forall l', l' <> l -> baseInputs w1 !! l' = baseInputs w !! l')
            /\ outPoints w1 = outPoints w /\ signDescs w1 = signDescs w
            /\ msgTxs w1 = msgTxs w /\ htlcInputs w1 = htlcInputs w).
  { intros b l w1 [= <- <-]. cbn.
    split; [apply not_elem_of_dom, is_fresh |].
    split; [rewrite lookup_insert_eq; eauto |].
    split; [| auto].
    intros l' Hne. apply lookup_insert_ne. congruence. }
  unfold NewBaseInput.
  unfold MakeBaseInput, MakeHtlcSucceedInput, NewCsvInput, bind, load, ret.
  destruct (readOutPoint outpoint w) as [op |];
    [destruct (readSignDesc signDescriptor w) as [sd |] |].
  - repeat split; try discriminate;
      try (intros [H | H]; discriminate H);
      try (intros ? ? [= _ <-]; reflexivity);
      match goal with
      | Hrun : allocBase _ _ = Some _ |- _ =>
          destruct (Halloc _ _ _ Hrun) as (? & ? & ? & ? & ? & ? & ?);
          assumption
      end.
  - repeat split; try discriminate; auto.
  - repeat split; try discriminate; auto.
Qed.

(** X13: [OutPoint()] and [SignDesc()] give out references into the input
    itself: an assignment through the reference [OutPoint()] returned
    changes the outpoint of the input, one through the reference
    [SignDesc()] returned changes its descriptor, and nothing else of the
    input changes. *)
Theorem accessors_give_out_live_references i k (o : OutPoint) d w :
  readKit i w = Some k ->
  (exists w1,
     (p <- inputKit_OutPoint i ;; store (writeOutPoint p o)) w
     = Some (tt, w1)
     /\ readKit i w1
        = Some (mkInputKit o (witnessType k) (signDesc k) (heightHint k)
                  (blockToMaturity k))
     /\ (p <- inputKit_OutPoint i ;; load (readOutPoint p)) w1
        = Some (o, w1))
  /\ (exists w2,
        (p <- inputKit_SignDesc i ;; store (writeSignDesc p d)) w
        = Some (tt, w2)
        /\ readKit i w2 = Some (kitWithSignDesc k d)
        /\ (p <- inputKit_SignDesc i ;; load (readSignDesc p)) w2
           = Some (d, w2)).
Proof.
  intros Hk. split.
  - assert (Hread : is_Some (readOutPoint (OutpointOf i) w))
      by (cbn; rewrite Hk; eauto).
    destruct (writeOutPoint_is_Some (OutpointOf i) o w Hread) as [w1 Hw].
    assert (Hk1 : readKit i w1
                  = Some (mkInputKit o (witnessType k) (signDesc k)
                            (heightHint k) (blockToMaturity k))).
    { cbn in Hw. rewrite Hk in Hw. cbn in Hw.
      rewrite (readKit_writeKit i _ _ _ _ Hw).
      rewrite decide_True by reflexivity. reflexivity. }
    exists w1. split; [| split; [exact Hk1 |]].
    + unfold inputKit_OutPoint.
      rewrite bind_assoc, (bind_load _ _ _ _ Hk). cbv beta. rewrite bind_ret.
      unfold store. rewrite Hw. reflexivity.
    + apply (holdsCopies_readKit _ _ _ Hk1).
  - assert (Hread : is_Some (readSignDesc (SignDescOf i) w))
      by (cbn; rewrite Hk; eauto).
    destruct (writeSignDesc_is_Some (SignDescOf i) d w Hread) as [w2 Hw].
    assert (Hk2 : readKit i w2 = Some (kitWithSignDesc k d)).
    { cbn in Hw. rewrite Hk in Hw. cbn in Hw.
      rewrite (readKit_writeKit i _ _ _ _ Hw).
      rewrite decide_True by reflexivity. reflexivity. }
    exists w2. split; [| split; [exact Hk2 |]].
    + unfold inputKit_SignDesc.
      rewrite bind_assoc, (bind_load _ _ _ _ Hk). cbv beta. rewrite bind_ret.
      unfold store. rewrite Hw. reflexivity.
    + apply (holdsCopies_readKit _ _ _ Hk2).
Qed.

(** X14: a craft call reaches one input and one transaction.
    [CraftInputScript] on a base input leaves every other input, every
    outpoint and descriptor object and every other transaction as it was,
    and of the input itself it can change the descriptor only;
    [CraftInputScript] on an HTLC input leaves every input, its own
    included, as it was. *)
Theorem CraftInputScript_reaches_one_input
    signer txn hashCache txinIdx w tx :
  msgTxs w !! txn = Some tx ->
  (forall bi b,
     baseInputs w !! bi = Some b ->
     exists result w',
       BaseInput_CraftInputScript bi signer txn hashCache txinIdx w
       = Some (result, w')
       /\ (forall i, i <> KitOfBase bi -> readKit i w' = readKit i w)
       /\ (exists d',
             readKit (KitOfBase bi) w'
             = Some (kitWithSignDesc (base_inputKit b) d'))
       /\ outPoints w' = outPoints w /\ signDescs w' = signDescs w
       /\ (forall t, t <> txn -> msgTxs w' !! t = msgTxs w !! t))
  /\ (forall h hv,
        htlcInputs w !! h = Some hv ->
        exists result w',
          HtlcSucceedInput_CraftInputScript h signer txn hashCache txinIdx w
          = Some (result, w')
          /\ htlcInputs w' = htlcInputs w /\ baseInputs w' = baseInputs w
          /\ outPoints w' = outPoints w /\ signDescs w' = signDescs w
          /\ (forall t, t <> txn -> msgTxs w' !! t = msgTxs w !! t)).
Proof.
  intros Htx. split.
  - intros bi b Hb. eexists. eexists. split.
    + apply (BaseInput_CraftInputScript_run _ _ _ _ _ _ _ _ Hb Htx).
    + cbv zeta. unfold writtenBase. cbn. split; [| split; [| split; [| split]]].
      * intros [l | l] Hne; cbn; [| reflexivity].
        rewrite lookup_insert_ne by congruence. reflexivity.
      * eexists. rewrite lookup_insert_eq. reflexivity.
      * reflexivity.
      * reflexivity.
      * intros t Hne. apply lookup_insert_ne. congruence.
  - intros h hv Hh. eexists. eexists. split.
    + apply (HtlcSucceedInput_CraftInputScript_run _ _ _ _ _ _ _ _ Hh Htx).
    + cbv zeta. cbn. repeat split.
      intros t Hne. apply lookup_insert_ne. congruence.
Qed.

(** A write through a reference that does not point into the HTLC input
    at [l] leaves that input, preimage included, as it was. *)
Lemma htlcInputs_writeKit j k l w w' :
  writeKit j k w = Some w' ->
  j <> KitOfHtlc l ->
  htlcInputs w' !! l = htlcInputs w !! l.
Proof.
  intros Hw Hne. destruct j as [l0 | l0]; cbn in Hw.
  - destruct (baseInputs w !! l0); [| discriminate].
    cbn in Hw. injection Hw as <-. reflexivity.
  - destruct (htlcInputs w !! l0); [| discriminate].
    cbn in Hw. injection Hw as <-. cbn.
    apply lookup_insert_ne. congruence.
Qed.

Lemma htlcInputs_writeOutPoint p (o : OutPoint) l w w' :
  writeOutPoint p o w = Some w' ->
  p <> OutpointOf (KitOfHtlc l) ->
  htlcInputs w' !! l = htlcInputs w !! l.
Proof.
  intros Hw Hne. destruct p as [l0 | j]; cbn in Hw.
  - destruct (outPoints w !! l0); [| discriminate].
    cbn in Hw. injection Hw as <-. reflexivity.
  - destruct (readKit j w); [| discriminate]. cbn in Hw.
    apply (htlcInputs_writeKit _ _ _ _ _ Hw). congruence.
Qed.

Lemma htlcInputs_writeSignDesc q d l w w' :
  writeSignDesc q d w = Some w' ->
  q <> SignDescOf (KitOfHtlc l) ->
  htlcInputs w' !! l = htlcInputs w !! l.
Proof.
  intros Hw Hne. destruct q as [l0 | j]; cbn in Hw.
  - destruct (signDescs w !! l0); [| discriminate].
    cbn in Hw. injection Hw as <-. reflexivity.
  - destruct (readKit j w); [| discriminate]. cbn in Hw.
    apply (htlcInputs_writeKit _ _ _ _ _ Hw). congruence.
Qed.

Lemma htlcInputs_mutatesThrough rop rsd l w1 w2 :
  mutatesThrough rop rsd w1 w2 ->
  rop <> OutpointOf (KitOfHtlc l) ->
  rsd <> SignDescOf (KitOfHtlc l) ->
  htlcInputs w2 !! l = htlcInputs w1 !! l.
Proof.
  intros Hmut Hop Hsd.
  induction Hmut as [w | w w1 w2 o Hw _ IH | w w1 w2 d Hw _ IH].
  - reflexivity.
  - rewrite IH. eapply htlcInputs_writeOutPoint; eassumption.
  - rewrite IH. eapply htlcInputs_writeSignDesc; eassumption.
Qed.

(** X15: an input crafts with what it was built from.  Built by
    [NewCsvInput] from a witness type and two references, the input
    still holds, after any assignments of the caller through those
    references, the outpoint and the descriptor found at construction,
    the witness type, the height hint and the blocks to maturity, and
    [CraftInputScript] calls the generator of that witness type with that
    descriptor.  Built by [MakeHtlcSucceedInput], it still holds the
    preimage as well, its witness type is [HtlcAcceptedRemoteSuccess], and
    [CraftInputScript] hands [SenderHtlcSpendRedeem] that preimage and
    that descriptor, bound to the call. *)
Theorem built_input_crafts_with_what_it_was_given
    outpoint (witnessType : WitnessType) signDescriptor pre h m w
    (op : OutPoint) sd :
  readOutPoint outpoint w = Some op ->
  readSignDesc signDescriptor w = Some sd ->
  (exists l w1,
     NewCsvInput outpoint witnessType signDescriptor h m w = Some (l, w1)
     /\ forall w2,
          mutatesThrough outpoint signDescriptor w1 w2 ->
          baseInputs w2 !! l
          = Some (mkBaseInput (mkInputKit op witnessType sd h m))
          /\ forall signer txn hashCache txinIdx tx,
               msgTxs w2 !! txn = Some tx ->
               exists w3,
                 BaseInput_CraftInputScript l signer txn hashCache txinIdx w2
                 = Some ((WitnessGenerator witnessType signer tx hashCache
                            txinIdx sd).1.1, w3))
  /\ (exists hv l w1,
        @MakeHtlcSucceedInput _ _ _ _ _ _ collaborators outpoint
          signDescriptor pre h m w = Some (hv, w)
        /\ allocHtlc hv w = Some (l, w1)
        /\ forall w2,
             mutatesThrough outpoint signDescriptor w1 w2 ->
             htlcInputs w2 !! l
             = Some (mkHtlcSucceedInput
                       (mkInputKit op HtlcAcceptedRemoteSuccess sd h m) pre)
             /\ forall signer txn hashCache txinIdx tx,
                  msgTxs w2 !! txn = Some tx ->
                  let out :=
                    SenderHtlcSpendRedeem signer
                      (setInputIndex (setSigHashes sd hashCache) txinIdx) tx
                      pre in
                  exists w3,
                    HtlcSucceedInput_CraftInputScript l signer txn hashCache
                      txinIdx w2
                    = Some (match out.1.1.2 with
                            | Some e => (None, Some e)
                            | None => (Some (mkScript out.1.1.1 []), None)
                            end, w3)).
Proof.
  intros Hop Hsd. split.
  - set (b := mkBaseInput (mkInputKit op witnessType sd h m)).
    destruct (allocBase_fresh b w)
      as (l & w1 & Halloc & Hnone & Hl & _).
    exists l, w1. split.
    + rewrite (NewCsvInput_run _ _ _ _ _ _ _ _ Hop Hsd). exact Halloc.
    + intros w2 Hmut.
      assert (Hne1 : outpoint <> OutpointOf (KitOfBase l))
        by (intros ->; cbn in Hop; rewrite Hnone in Hop; discriminate).
      assert (Hne2 : signDescriptor <> SignDescOf (KitOfBase l))
        by (intros ->; cbn in Hsd; rewrite Hnone in Hsd; discriminate).
      pose proof (readKit_mutatesThrough _ _ (KitOfBase l) _ _ Hmut Hne1 Hne2)
        as Hk2.
      rewrite (readKit_base _ _ _ Hl) in Hk2. cbn in Hk2.
      destruct (baseInputs w2 !! l) as [[k2] |] eqn:Hb2; [| discriminate].
      cbn in Hk2. injection Hk2 as ->.
      split; [reflexivity |].
      intros signer txn hashCache txinIdx tx Htx. eexists.
      apply (BaseInput_CraftInputScript_run _ _ _ _ _ _ _ _ Hb2 Htx).
  - set (hv := mkHtlcSucceedInput
                 (mkInputKit op HtlcAcceptedRemoteSuccess sd h m) pre).
    destruct (allocHtlc_fresh hv w)
      as (l & w1 & Halloc & Hnone & Hl & _).
    exists hv, l, w1.
    split; [apply MakeHtlcSucceedInput_run; assumption |].
    split; [exact Halloc |].
    intros w2 Hmut.
    assert (Hne1 : outpoint <> OutpointOf (KitOfHtlc l))
      by (intros ->; cbn in Hop; rewrite Hnone in Hop; discriminate).
    assert (Hne2 : signDescriptor <> SignDescOf (KitOfHtlc l))
      by (intros ->; cbn in Hsd; rewrite Hnone in Hsd; discriminate).
    pose proof (htlcInputs_mutatesThrough _ _ l _ _ Hmut Hne1 Hne2) as Hh2.
    rewrite Hl in Hh2.
    split; [exact Hh2 |].
    intros signer txn hashCache txinIdx tx Htx out. eexists.
    apply (HtlcSucceedInput_CraftInputScript_run _ _ _ _ _ _ _ _ Hh2 Htx).
Qed.

End Sweeping.

(** The sweep of [Scenario], once more. *)
Module Sweep.
Import Scenario.

Local Notation "x <- m ;; k" := (bind m (fun x => k))
  (at level 100, m at next level, right associativity).

(** Whoever holds [OutPoint()] of the base input can point it at another
    output. *)
Lemma accessors_give_out_live_references_witness :
  exists w1 : Store,
    (p <- inputKit_OutPoint (KitOfBase 1%positive) ;;
     store (writeOutPoint p op1)) w0 = Some (tt, w1)
    /\ (p <- inputKit_OutPoint (KitOfBase 1%positive) ;;
        load (readOutPoint p)) w1 = Some (op1, w1).
Proof.
  destruct (@accessors_give_out_live_references _ _ _ _
              (KitOfBase 1%positive) (base_inputKit base0) op1 sd1 w0
              eq_refl) as [(w1 & Hwrite & _ & Hread) _].
  exists w1. split; [exact Hwrite | exact Hread].
Defined.

Lemma CraftInputScript_reaches_one_input_witness :
  exists result (w' : Store),
    craftBase stubs w0 = Some (result, w')
    /\ readKit (KitOfHtlc 1%positive) w' = readKit (KitOfHtlc 1%positive) w0
    /\ outPoints w' = outPoints w0 /\ signDescs w' = signDescs w0.
Proof.
  destruct (@CraftInputScript_reaches_one_input _ _ _ _ _ _ stubs
              stubSigner 1%positive 5%nat 0 w0 sweepTx eq_refl)
    as [Hbase _].
  destruct (Hbase 1%positive base0 eq_refl)
    as (result & w' & Hrun & Hothers & _ & Hops & Hsds & _).
  exists result, w'. split; [exact Hrun |].
  split; [apply Hothers; discriminate |].
  split; [exact Hops | exact Hsds].
Defined.

Lemma built_input_crafts_with_what_it_was_given_witness :
  exists (l : loc) (w1 : Store),
    NewCsvInput (OutPointAt 1%positive) CsvDelayed (SignDescAt 1%positive)
      100 144 w0 = Some (l, w1)
    /\ baseInputs w1 !! l
       = Some (mkBaseInput (mkInputKit op0 CsvDelayed sd0 100 144)).
Proof.
  destruct (@built_input_crafts_with_what_it_was_given _ _ _ _ _ _ stubs
              (OutPointAt 1%positive) CsvDelayed (SignDescAt 1%positive)
              paymentPreimage 100 144 w0 op0 sd0 eq_refl eq_refl)
    as [(l & w1 & Hnew & Hkeeps) _].
  exists l, w1. split; [exact Hnew |].
  apply (Hkeeps w1 (mutates_nothing _ _ w1)).
Defined.

End Sweep.

End Input.

(** ** Package btcwallet: the driver's factory *)

Module BtcWallet.

Section Driver.

(** The wallet's [Config], the [blockcache.BlockCache], the
    [lnwallet.WalletController] that [New] returns for them, and Go's
    [error] values, of which [fmt.Errorf] makes one from a message. *)
Context {Config BlockCache WalletController error : Type}.
Variable Errorf : string -> error.

(** A value of [interface{}], as the factory tells them apart: a
    [*Config], a [*blockcache.BlockCache] (either may be a [nil] pointer),
    or anything else, the [nil] interface included. *)
Inductive Arg : Type :=
| ConfigRef (config : option Config)
| BlockCacheRef (blockCache : option BlockCache)
| Other.

(** [New(cfg, blockCache)], of a file that is not among the sources. *)
Variable New :
  Config -> option BlockCache -> option WalletController * option error.

Definition walletType : string := "ltcwallet".

(** [createNewWallet(args...)]: what it returns, or [None] when it
    panics. *)
Definition createNewWallet (args : list Arg)
  : option (option WalletController * option error) :=
  if decide (length args ≠ 2) then
    Some (None,
          Some (Errorf ("incorrect number of arguments to .New(...), "
                        +:+ "expected 2, instead passed "
                        +:+ pretty (length args))))
  else
    arg0 ← args !! 0;
    match arg0 with
    | ConfigRef config =>
        arg1 ← args !! 1;
        match arg1 with
        | BlockCacheRef blockCache =>
            cfg ← config;
            Some (New cfg blockCache)
        | _ =>
            Some (None,
                  Some (Errorf ("second argument to ltcdnotifier.New is "
                                +:+ "incorrect, expected a "
                                +:+ "*blockcache.BlockCache")))
        end
    | _ =>
        Some (None,
              Some (Errorf ("first argument to ltcdnotifier.New is "
                            +:+ "incorrect, expected a "
                            +:+ "*rpcclient.ConnConfig")))
    end.

End Driver.

Section DriverFacts.

Context {Config BlockCache WalletController error : Type}.
Variable Errorf : string -> error.

Implicit Types args : list (@Arg Config BlockCache).
Implicit Types New :
  Config -> option BlockCache -> option WalletController * option error.

Example createNewWallet_one_argument New :
  createNewWallet Errorf New [Other]
  = Some (None,
          Some (Errorf "incorrect number of arguments to .New(...), expected 2, instead passed 1")).
Proof. reflexivity. Qed.

(** X16: [createNewWallet] builds a wallet from exactly two arguments, a
    [*Config] that is not [nil] and a [*blockcache.BlockCache], in this
    order, and then returns what [New] returns for them.  On a [nil]
    [*Config] followed by a [*blockcache.BlockCache] it panics.  On every
    other list of arguments it returns no wallet and an error without
    calling [New]: the number of arguments is checked first and its error
    names the number passed, then the first argument, then the second. *)
Theorem createNewWallet_checks_its_arguments New args :
  (forall cfg blockCache,
     args = [ConfigRef (Some cfg); BlockCacheRef blockCache] ->
     createNewWallet Errorf New args = Some (New cfg blockCache))
  /\ (createNewWallet Errorf New args = None
      <-> exists blockCache, args = [ConfigRef None; BlockCacheRef blockCache])
  /\ ((forall config blockCache,
         args <> [ConfigRef config; BlockCacheRef blockCache]) ->
      (exists message,
         createNewWallet Errorf New args = Some (None, Some (Errorf message)))
      /\ forall New',
           createNewWallet Errorf New' args = createNewWallet Errorf New args)
  /\ (length args <> 2 ->
      createNewWallet Errorf New args
      = Some (None,
              Some (Errorf ("incorrect number of arguments to .New(...), "
                            +:+ "expected 2, instead passed "
                            +:+ pretty (length args)))))
  /\ (forall arg0 arg1,
        args = [arg0; arg1] ->
        (forall config, arg0 <> ConfigRef config) ->
        createNewWallet Errorf New args
        = Some (None,
                Some (Errorf ("first argument to ltcdnotifier.New is "
                              +:+ "incorrect, expected a "
                              +:+ "*rpcclient.ConnConfig")))).
Proof.
  split; [| split; [| split; [| split]]].
  - intros cfg blockCache ->. reflexivity.
  - split.
    + unfold createNewWallet.
      destruct (decide (length args ≠ 2)) as [Hlen | Hlen]; [discriminate |].
      destruct args as [| arg0 [| arg1 [| arg2 args]]]; cbn in Hlen;
        try (exfalso; apply Hlen; discriminate || lia).
      cbn. destruct arg0 as [config | |]; try discriminate.
      destruct arg1 as [| blockCache |]; try discriminate.
      destruct config as [cfg |]; [discriminate |]. eauto.
    + intros [blockCache ->]. reflexivity.
  - intros Hshape. unfold createNewWallet.
    destruct (decide (length args ≠ 2)) as [Hlen | Hlen]; [eauto |].
    destruct args as [| arg0 [| arg1 [| arg2 args]]]; cbn in Hlen;
      try (exfalso; apply Hlen; discriminate || lia).
    cbn. destruct arg0 as [config | |]; eauto.
    destruct arg1 as [| blockCache |]; eauto.
    exfalso. apply (Hshape config blockCache). reflexivity.
  - intros Hlen. unfold createNewWallet.
    rewrite decide_True by exact Hlen. reflexivity.
  - intros arg0 arg1 -> Hfirst.
    destruct arg0 as [config | |]; [| reflexivity | reflexivity].
    exfalso. apply (Hfirst config). reflexivity.
Qed.

End DriverFacts.

End BtcWallet.
